(** * no-sleep: the wake-lock strategies and their selector

    A shallow embedding of [lib/main.ts].  The three classes
    [NoSleepSSR], [NoSleepNative] and [NoSleepVideo] become modules of
    state-passing functions over an explicit host (the document, the
    platform's wake-lock sentinels and the console); the selector
    [defaultExport] and its helpers [getIOSVersion], [isVersionGTE] and
    [shouldUseNative] become pure functions of the environment. *)

From Stdlib Require Import ZArith QArith Lqa String Ascii List Lia.
From stdpp Require Import base option gmap list strings.
Import ListNotations.

Local Open Scope string_scope.

(** ** JavaScript values the code observes *)

(** A [number] where the code compares media times: a finite value is a
    rational (every finite double is one; the code only compares and
    copies them), and the comparison operators answer [false] on NaN. *)
Inductive number : Type :=
| NaN
| PosInfinity
| NegInfinity
| Finite (q : Q).

(** [a <= b] of JavaScript. *)
Definition num_le (a b : number) : bool :=
  match a, b with
  | NaN, _ | _, NaN => false
  | NegInfinity, _ => true
  | _, PosInfinity => true
  | Finite x, Finite y => Qle_bool x y
  | _, _ => false
  end.

(** [a > b] of JavaScript. *)
Definition num_gt (a b : number) : bool :=
  match a, b with
  | NaN, _ | _, NaN => false
  | PosInfinity, PosInfinity => false
  | PosInfinity, _ => true
  | Finite _, NegInfinity => true
  | Finite x, Finite y => negb (Qle_bool x y)
  | _, _ => false
  end.

(** What a [catch] clause can receive: an instance of [Error] (with its
    [name] and [message]; a [DOMException] is one), or any other value. *)
Inductive Thrown : Type :=
| ErrorObject (name message : string)
| NonError (shown : string).

(** How a synchronous call ends. *)
Inductive Completion : Type :=
| Normal
| Throws (v : Thrown).

(** How the promise of an [async] method settles. *)
Inductive Settled : Type :=
| Fulfilled
| RejectedWith (v : Thrown).

(** How the awaited platform promise ([navigator.wakeLock.request],
    [HTMLMediaElement.play]) settles. *)
Inductive Outcome : Type :=
| Granted
| Failed (err : Thrown).

Inductive LogEntry : Type :=
| console_debug (msg : string)
| console_error (msg : string).

(** ** The document *)

(** The closures the code registers as event listeners. *)
Inductive Listener : Type :=
| handleVisibilityChange
| onRelease
| onLoadedMetadata
| onTimeUpdate.

Inductive VisibilityState : Type := visible | hidden.

(** An element, with the content attributes, the IDL properties and the
    media state the code reads or writes. *)
Record Element : Type := {
  tagName : string;
  attributes : gmap string string;
  src : string;
  type : string;
  style : gmap string string;
  childNodes : list nat;
  parentNode : option nat;
  listeners : list (string * Listener);
  duration : number;
  currentTime : number;
  paused : bool
}.

(** The document: its elements by identity, the element that
    [querySelector('body')] answers, its visibility and its own
    listeners. *)
Record Document : Type := {
  nodes : gmap nat Element;
  body : option nat;
  visibilityState : VisibilityState;
  documentListeners : list (string * Listener)
}.

(** *** Element updates *)

Definition blank (tag : string) : Element :=
  {| tagName := tag; attributes := ∅; src := ""; type := ""; style := ∅;
     childNodes := []; parentNode := None; listeners := [];
     duration := NaN; currentTime := Finite 0; paused := true |}.

Definition with_attribute (k v : string) (e : Element) : Element :=
  {| tagName := tagName e; attributes := <[k := v]> (attributes e);
     src := src e; type := type e; style := style e;
     childNodes := childNodes e; parentNode := parentNode e;
     listeners := listeners e; duration := duration e;
     currentTime := currentTime e; paused := paused e |}.

Definition with_src (v : string) (e : Element) : Element :=
  {| tagName := tagName e; attributes := attributes e;
     src := v; type := type e; style := style e;
     childNodes := childNodes e; parentNode := parentNode e;
     listeners := listeners e; duration := duration e;
     currentTime := currentTime e; paused := paused e |}.

Definition with_type (v : string) (e : Element) : Element :=
  {| tagName := tagName e; attributes := attributes e;
     src := src e; type := v; style := style e;
     childNodes := childNodes e; parentNode := parentNode e;
     listeners := listeners e; duration := duration e;
     currentTime := currentTime e; paused := paused e |}.

Definition with_style (k v : string) (e : Element) : Element :=
  {| tagName := tagName e; attributes := attributes e;
     src := src e; type := type e; style := <[k := v]> (style e);
     childNodes := childNodes e; parentNode := parentNode e;
     listeners := listeners e; duration := duration e;
     currentTime := currentTime e; paused := paused e |}.

Definition with_childNodes (c : list nat) (e : Element) : Element :=
  {| tagName := tagName e; attributes := attributes e;
     src := src e; type := type e; style := style e;
     childNodes := c; parentNode := parentNode e;
     listeners := listeners e; duration := duration e;
     currentTime := currentTime e; paused := paused e |}.

Definition with_parentNode (p : option nat) (e : Element) : Element :=
  {| tagName := tagName e; attributes := attributes e;
     src := src e; type := type e; style := style e;
     childNodes := childNodes e; parentNode := p;
     listeners := listeners e; duration := duration e;
     currentTime := currentTime e; paused := paused e |}.

Definition with_listener (ty : string) (l : Listener) (e : Element) : Element :=
  {| tagName := tagName e; attributes := attributes e;
     src := src e; type := type e; style := style e;
     childNodes := childNodes e; parentNode := parentNode e;
     listeners := listeners e ++ [(ty, l)]; duration := duration e;
     currentTime := currentTime e; paused := paused e |}.

Definition with_currentTime (t : number) (e : Element) : Element :=
  {| tagName := tagName e; attributes := attributes e;
     src := src e; type := type e; style := style e;
     childNodes := childNodes e; parentNode := parentNode e;
     listeners := listeners e; duration := duration e;
     currentTime := t; paused := paused e |}.

Definition with_paused (b : bool) (e : Element) : Element :=
  {| tagName := tagName e; attributes := attributes e;
     src := src e; type := type e; style := style e;
     childNodes := childNodes e; parentNode := parentNode e;
     listeners := listeners e; duration := duration e;
     currentTime := currentTime e; paused := b |}.

(** *** Document operations *)

Definition with_nodes (n : gmap nat Element) (d : Document) : Document :=
  {| nodes := n; body := body d; visibilityState := visibilityState d;
     documentListeners := documentListeners d |}.

Definition update_node (id : nat) (f : Element -> Element) (d : Document)
  : Document :=
  with_nodes (alter f id (nodes d)) d.

(** [document.createElement(tag)]: a new element, in no tree yet. *)
Definition createElement (tag : string) (d : Document) : nat * Document :=
  let id := fresh (dom (nodes d)) in
  (id, with_nodes (<[id := blank tag]> (nodes d)) d).

Definition setAttribute (id : nat) (k v : string) : Document -> Document :=
  update_node id (with_attribute k v).

(** [Object.assign(element.style, props)]. *)
Definition assign_style (id : nat) (props : list (string * string))
  : Document -> Document :=
  update_node id (fun e => fold_left (fun e kv => with_style kv.1 kv.2 e) props e).

(** Take [child] out of the children of its parent, if it has one. *)
Definition remove_from_parent (child : nat) (d : Document) : Document :=
  match nodes d !! child with
  | Some c =>
      match parentNode c with
      | Some p =>
          update_node child (with_parentNode None)
            (update_node p
               (fun e => with_childNodes
                           (filter (fun x => x ≠ child) (childNodes e)) e) d)
      | None => d
      end
  | None => d
  end.

(** [parent.append(child)] and [parent.appendChild(child)] with one
    node: [child] becomes the last child of [parent]. *)
Definition append (parent child : nat) (d : Document) : Document :=
  let d1 := remove_from_parent child d in
  update_node child (with_parentNode (Some parent))
    (update_node parent
       (fun e => with_childNodes (childNodes e ++ [child]) e) d1).

Definition addEventListener (id : nat) (ty : string) (l : Listener)
  : Document -> Document :=
  update_node id (with_listener ty l).

Definition document_addEventListener (ty : string) (l : Listener)
  (d : Document) : Document :=
  {| nodes := nodes d; body := body d; visibilityState := visibilityState d;
     documentListeners := documentListeners d ++ [(ty, l)] |}.

Definition with_visibilityState (v : VisibilityState) (d : Document)
  : Document :=
  {| nodes := nodes d; body := body d; visibilityState := v;
     documentListeners := documentListeners d |}.

(** ** The host *)

(** A wake-lock sentinel as the platform keeps it. *)
Record WakeLockSentinel : Type := {
  released : bool;
  releaseListeners : list Listener
}.

(** Everything outside the instance that its methods read or write:
    the document, the sentinels the platform has handed out (by
    identity), the console, and how often [Math.random] was called. *)
Record Host : Type := {
  the_document : Document;
  wakeLocks : gmap nat WakeLockSentinel;
  console : list LogEntry;
  random_calls : nat
}.

Definition with_document (d : Document) (h : Host) : Host :=
  {| the_document := d; wakeLocks := wakeLocks h; console := console h;
     random_calls := random_calls h |}.

Definition with_wakeLocks (w : gmap nat WakeLockSentinel) (h : Host) : Host :=
  {| the_document := the_document h; wakeLocks := w; console := console h;
     random_calls := random_calls h |}.

Definition log (e : LogEntry) (h : Host) : Host :=
  {| the_document := the_document h; wakeLocks := wakeLocks h;
     console := console h ++ [e]; random_calls := random_calls h |}.

(** [if (err instanceof Error) console.error(`${err.name}, ${err.message}`)]:
    the first case is the instance of [Error], the second any other
    value. *)
Definition log_if_Error (err : Thrown) (h : Host) : Host :=
  match err with
  | ErrorObject name message => log (console_error (name ++ ", " ++ message)) h
  | NonError _ => h
  end.

(** A small state monad, for the code that threads the host through a
    sequence of DOM calls. *)
Definition State (S A : Type) : Type := S -> A * S.

Definition ret {S A : Type} (a : A) : State S A := fun s => (a, s).

Definition bind {S A B : Type} (m : State S A) (k : A -> State S B)
  : State S B :=
  fun s => let '(a, s') := m s in k a s'.

Notation "'let*' x ':=' m 'in' k" := (bind m (fun x => k))
  (at level 10, x name, m at level 100, k at level 200).
Notation "m ;; k" := (bind m (fun _ => k))
  (at level 100, right associativity).

(** Run a document update on the host. *)
Definition on_document (f : Document -> Document) : State Host unit :=
  fun h => (tt, with_document (f (the_document h)) h).

Definition document_createElement (tag : string) : State Host nat :=
  fun h => let '(id, d) := createElement tag (the_document h) in
           (id, with_document d h).

Definition querySelector_body : State Host (option nat) :=
  fun h => (body (the_document h), h).

(** ** The selector *)

(** The [navigator] global as the selector reads it: whether it has a
    [wakeLock] property, its [userAgent], and the non-standard
    [standalone] property ([None] where it is undefined). *)
Record Navigator : Type := {
  has_wakeLock : bool;
  userAgent : string;
  standalone : option bool
}.

(** The globals of the environment the module is loaded in; [None] is a
    global that is not defined there. *)
Record Env : Type := {
  navigator : option Navigator;
  document : option Document
}.

Definition truthy (v : option bool) : bool :=
  match v with
  | Some b => b
  | None => false
  end.

(** [s.includes(p)]: a regular expression that is a literal matches
    wherever the literal occurs. *)
Fixpoint includes (p s : string) : bool :=
  String.prefix p s ||
  match s with
  | EmptyString => false
  | String _ t => includes p t
  end.

(** [\d] without the unicode flag: the ten ASCII digits. *)
Definition is_digit (c : ascii) : bool :=
  let n := nat_of_ascii c in (48 <=? n)%nat && (n <=? 57)%nat.

(** The longest run of digits at the start of [s], and what follows it. *)
Fixpoint digits_prefix (s : string) : string * string :=
  match s with
  | String c t =>
      if is_digit c
      then let '(d, r) := digits_prefix t in (String c d, r)
      else (EmptyString, s)
  | EmptyString => (EmptyString, EmptyString)
  end.

Fixpoint strip_prefix (p s : string) : option string :=
  match p, s with
  | EmptyString, _ => Some s
  | String a p', String b s' =>
      if Ascii.eqb a b then strip_prefix p' s' else None
  | String _ _, EmptyString => None
  end.

(** [/OS (\d+)_(\d+)/] tried at the start of [s].  Both groups are
    greedy, and giving a digit back never helps: after the first group
    the pattern needs an underscore, after the second nothing. *)
Definition match_OS_here (s : string) : option (string * string) :=
  match strip_prefix "OS " s with
  | None => None
  | Some r =>
      let '(major, r1) := digits_prefix r in
      match major, r1 with
      | String _ _, String "_"%char r2 =>
          let '(minor, _) := digits_prefix r2 in
          match minor with
          | String _ _ => Some (major, minor)
          | EmptyString => None
          end
      | _, _ => None
      end
  end.

(** [s.match(/OS (\d+)_(\d+)/)]: the leftmost match, as its two groups. *)
Fixpoint match_OS (s : string) : option (string * string) :=
  match match_OS_here s with
  | Some m => Some m
  | None =>
      match s with
      | EmptyString => None
      | String _ t => match_OS t
      end
  end.

Definition digit_value (c : ascii) : Z := Z.of_nat (nat_of_ascii c) - 48.

Fixpoint Number_from (acc : Z) (s : string) : Z :=
  match s with
  | EmptyString => acc
  | String c t => Number_from (10 * acc + digit_value c) t
  end.

(** [Number(s)] on a string of digits, as the integer it denotes.
    (A double is exact up to 2^53 and rounding is monotone, so comparing
    with the small constants of this file gives the same answer.) *)
Definition Number (s : string) : Z := Number_from 0 s.

Definition Version : Type := (Z * Z)%type.

Definition getIOSVersion (nav : Navigator) : option Version :=
  let ua := userAgent nav in
  if negb (includes "iPod" ua || includes "iPhone" ua || includes "iPad" ua)
  then None
  else
    match match_OS ua with
    | Some (major, minor) => Some (Number major, Number minor)
    | None => None
    end.

Definition isVersionGTE (a b : Version) : bool :=
  (a.1 >? b.1)%Z || ((a.1 =? b.1)%Z && (a.2 >=? b.2)%Z).

(** Detect native Wake Lock API support. *)
Definition shouldUseNative (nav : Navigator) : bool :=
  if negb (has_wakeLock nav) then false
  else
    match getIOSVersion nav with
    | None => true
    | Some iOSVersion =>
        negb (truthy (standalone nav)) || isVersionGTE iOSVersion (18, 4)%Z
    end.

(** The three constructors the module can export. *)
Inductive Strategy : Type := NoSleepSSR | NoSleepNative | NoSleepVideo.

Definition defaultExport (env : Env) : Strategy :=
  match navigator env with
  | None => NoSleepSSR
  | Some nav => if shouldUseNative nav then NoSleepNative else NoSleepVideo
  end.

(** ** The platform's wake locks *)

(** [navigator.wakeLock.request('screen')] granted: the platform hands
    out a new sentinel. *)
Definition request_granted (h : Host) : nat * Host :=
  let lock := fresh (dom (wakeLocks h)) in
  (lock,
   with_wakeLocks
     (<[lock := {| released := false; releaseListeners := [] |}]> (wakeLocks h))
     h).

(** [sentinel.addEventListener('release', l)]. *)
Definition sentinel_addEventListener (lock : nat) (l : Listener) (h : Host)
  : Host :=
  with_wakeLocks
    (alter (fun s => {| released := released s;
                        releaseListeners := releaseListeners s ++ [l] |})
       lock (wakeLocks h))
    h.

(** The listener of [NoSleepNative.enable]: it logs, and nothing else. *)
Definition run_release_listener (l : Listener) (h : Host) : Host :=
  match l with
  | onRelease => log (console_debug "Wake Lock released.") h
  | _ => h
  end.

(** The platform's release steps, run by [sentinel.release()] and by the
    platform on its own (loss of visibility, power policy): a sentinel
    that is not yet released is marked so and its release event fires. *)
Definition release (lock : nat) (h : Host) : Host :=
  match wakeLocks h !! lock with
  | Some s =>
      if released s then h
      else
        fold_left (fun h l => run_release_listener l h) (releaseListeners s)
          (with_wakeLocks
             (<[lock := {| released := true;
                           releaseListeners := releaseListeners s |}]>
                (wakeLocks h))
             h)
  | None => h
  end.

(** Whether the platform still honours the sentinel. *)
Definition active (lock : nat) (h : Host) : bool :=
  match wakeLocks h !! lock with
  | Some s => negb (released s)
  | None => false
  end.

(** ** class NoSleepSSR *)

Module NoSleepSSR.

Record t : Type := { enabled : bool }.

Definition constructor : t := {| enabled := false |}.

Definition enable (this : t) : Completion * t :=
  (Throws (ErrorObject "Error"
             "NoSleep using SSR/no-op mode; do not call enable."),
   this).

Definition disable (this : t) : Completion * t :=
  (Throws (ErrorObject "Error"
             "NoSleep using SSR/no-op mode; do not call disable."),
   this).

End NoSleepSSR.

(** The error of the no-op mode: a plain [Error] whose message says that
    the instance is in SSR/no-op mode and names the call to avoid. *)
Definition ModeError (v : Thrown) : bool :=
  match v with
  | ErrorObject name message =>
      String.eqb name "Error" &&
      String.prefix "NoSleep using SSR/no-op mode; do not call " message
  | NonError _ => false
  end.

(** ** class NoSleepNative *)

Module NoSleepNative.

Record t : Type := { enabled : bool; wakeLock : option nat }.

(** The field initialisers [enabled = false] and [wakeLock] undefined,
    then the constructor body. *)
Definition constructor : State Host t :=
  on_document
    (document_addEventListener "visibilitychange" handleVisibilityChange) ;;
  on_document
    (document_addEventListener "fullscreenchange" handleVisibilityChange) ;;
  ret {| enabled := false; wakeLock := None |}.

(** [enable()] from its one suspension point on, given how the awaited
    request settles.  Nothing before the [await] touches the instance,
    and the [catch] clause handles a rejection and a synchronous throw
    of the request alike. *)
Definition enable (o : Outcome) (this : t) (h : Host)
  : Settled * t * Host :=
  match o with
  | Granted =>
      let '(lock, h1) := request_granted h in
      let this1 := {| enabled := true; wakeLock := Some lock |} in
      let h2 := log (console_debug "Wake Lock active.") h1 in
      let h3 := sentinel_addEventListener lock onRelease h2 in
      (Fulfilled, this1, h3)
  | Failed err =>
      let this1 := {| enabled := false; wakeLock := wakeLock this |} in
      (Fulfilled, this1, log_if_Error err h)
  end.

Definition disable (this : t) (h : Host) : Completion * t * Host :=
  let h1 := match wakeLock this with
            | Some lock => release lock h
            | None => h
            end in
  (Normal, {| enabled := false; wakeLock := None |}, h1).

(** [this.wakeLock && document.visibilityState === 'visible' &&
    this.enable()]. *)
Definition handleVisibilityChange_call (o : Outcome) (this : t) (h : Host)
  : t * Host :=
  match wakeLock this, visibilityState (the_document h) with
  | Some _, visible => let '(_, this1, h1) := enable o this h in (this1, h1)
  | _, _ => (this, h)
  end.

(** An event of type [ty] at the document: its listeners for that
    type run in the order they were added.  Every
    [handleVisibilityChange] on the document is taken to be the one of
    this instance, as it is with one instance on the page. *)
Definition document_dispatchEvent (ty : string) (o : Outcome)
  (this : t) (h : Host) : t * Host :=
  fold_left
    (fun st (tl : string * Listener) =>
       if String.eqb ty tl.1
       then match tl.2 with
            | handleVisibilityChange =>
                handleVisibilityChange_call o st.1 st.2
            | _ => st
            end
       else st)
    (documentListeners (the_document h)) (this, h).

(** The document becomes [v], then [visibilitychange] fires. *)
Definition visibilitychange (v : VisibilityState) (o : Outcome)
  (this : t) (h : Host) : t * Host :=
  document_dispatchEvent "visibilitychange" o this
    (with_document (with_visibilityState v (the_document h)) h).

End NoSleepNative.

(** ** class NoSleepVideo *)

Module NoSleepVideo.

Record t : Type := { enabled : bool; noSleepVideo : nat }.

Inductive SourceType : Type := type_webm | type_mp4.

Definition type_name (ty : SourceType) : string :=
  match ty with
  | type_webm => "webm"
  | type_mp4 => "mp4"
  end.

Definition _addSourceToVideo (element : nat) (ty : SourceType)
  (dataURI : string) : State Host unit :=
  let* source := document_createElement "source" in
  on_document (update_node source (with_src dataURI)) ;;
  on_document (update_node source (with_type ("video/" ++ type_name ty))) ;;
  on_document (append element source).

Section Media.

(** The two payloads of [./media], opaque data URIs. *)
Variables mp4 webm : string.

(** What the successive calls of [Math.random] answer. *)
Variable Math_random_value : nat -> Q.

Definition constructor : State Host t :=
  let* video := document_createElement "video" in
  on_document (setAttribute video "title" "No Sleep") ;;
  on_document (setAttribute video "playsinline" "") ;;
  _addSourceToVideo video type_webm webm ;;
  _addSourceToVideo video type_mp4 mp4 ;;
  on_document
    (assign_style video
       [("position", "absolute"); ("left", "-100%"); ("top", "-100%")]) ;;
  let* b := querySelector_body in
  match b with
  | Some b => on_document (append b video)
  | None => ret tt
  end ;;
  on_document (addEventListener video "loadedmetadata" onLoadedMetadata) ;;
  ret {| enabled := false; noSleepVideo := video |}.

Definition Math_random : State Host Q :=
  fun h =>
    (Math_random_value (random_calls h),
     {| the_document := the_document h; wakeLocks := wakeLocks h;
        console := console h; random_calls := S (random_calls h) |}).

(** The listener added to [timeupdate]. *)
Definition timeupdate_listener (this : t) : State Host unit :=
  fun h =>
    match nodes (the_document h) !! noSleepVideo this with
    | Some e =>
        if num_gt (currentTime e) (Finite (1 # 2))
        then
          (let* r := Math_random in
           on_document
             (update_node (noSleepVideo this)
                (with_currentTime (Finite r)))) h
        else (tt, h)
    | None => (tt, h)
    end.

(** The listener the constructor adds to [loadedmetadata]. *)
Definition loadedmetadata_listener (this : t) : State Host unit :=
  fun h =>
    match nodes (the_document h) !! noSleepVideo this with
    | Some e =>
        if num_le (duration e) (Finite 1)
        then on_document (setAttribute (noSleepVideo this) "loop" "") h
        else on_document
               (addEventListener (noSleepVideo this) "timeupdate"
                  onTimeUpdate) h
    | None => (tt, h)
    end.

Definition run_listener (l : Listener) (this : t) : State Host unit :=
  match l with
  | onLoadedMetadata => loadedmetadata_listener this
  | onTimeUpdate => timeupdate_listener this
  | _ => ret tt
  end.

(** An event of type [ty] at the media element: the listeners it has
    for that type when the event arrives run in the order they were
    added. *)
Definition dispatchEvent (ty : string) (this : t) : State Host unit :=
  fun h =>
    match nodes (the_document h) !! noSleepVideo this with
    | Some e =>
        (tt,
         fold_left
           (fun h (tl : string * Listener) =>
              if String.eqb ty tl.1
              then (run_listener tl.2 this h).2
              else h)
           (listeners e) h)
    | None => (tt, h)
    end.

End Media.

(** [enable()] from its one suspension point on, given how the promise
    of [play()] settles; on success the element is playing.  The call of
    [play()] itself stands before the [try] and is taken to return its
    promise, as its type says. *)
Definition enable (o : Outcome) (this : t) (h : Host)
  : Settled * t * Host :=
  match o with
  | Granted =>
      let h1 := with_document
                  (update_node (noSleepVideo this) (with_paused false)
                     (the_document h)) h in
      (Fulfilled, {| enabled := true; noSleepVideo := noSleepVideo this |}, h1)
  | Failed err =>
      (Fulfilled, {| enabled := false; noSleepVideo := noSleepVideo this |},
       log_if_Error err h)
  end.

Definition disable (this : t) (h : Host) : Completion * t * Host :=
  let h1 := with_document
              (update_node (noSleepVideo this) (with_paused true)
                 (the_document h)) h in
  (Normal, {| enabled := false; noSleepVideo := noSleepVideo this |}, h1).

End NoSleepVideo.

(** ** The common interface [INoSleep] *)

Inductive Instance : Type :=
| SSR (this : NoSleepSSR.t)
| Native (this : NoSleepNative.t)
| Video (this : NoSleepVideo.t).

(** [new C()] for the constructor [C] the selector chose. *)
Definition new (mp4 webm : string) (C : Strategy) : State Host Instance :=
  match C with
  | NoSleepSSR => ret (SSR NoSleepSSR.constructor)
  | NoSleepNative => let* i := NoSleepNative.constructor in ret (Native i)
  | NoSleepVideo => let* i := NoSleepVideo.constructor mp4 webm in ret (Video i)
  end.

(** The constructor an instance was made by. *)
Definition strategy_of (i : Instance) : Strategy :=
  match i with
  | SSR _ => NoSleepSSR
  | Native _ => NoSleepNative
  | Video _ => NoSleepVideo
  end.

Definition enabled (i : Instance) : bool :=
  match i with
  | SSR this => NoSleepSSR.enabled this
  | Native this => NoSleepNative.enabled this
  | Video this => NoSleepVideo.enabled this
  end.

(** What can happen to an instance: a call of [enable] (with how its
    platform call settles), a call of [disable], or the platform
    releasing a sentinel on its own. *)
Inductive Operation : Type :=
| call_enable (o : Outcome)
| call_disable
| platform_release (lock : nat).

(** One operation, run to completion: the value thrown or rejected with,
    if any, and the instance and host afterwards. *)
Definition perform (op : Operation) (i : Instance) (h : Host)
  : option Thrown * Instance * Host :=
  match op, i with
  | platform_release lock, _ => (None, i, release lock h)
  | call_enable _, SSR this =>
      match NoSleepSSR.enable this with
      | (Throws v, this1) => (Some v, SSR this1, h)
      | (Normal, this1) => (None, SSR this1, h)
      end
  | call_disable, SSR this =>
      match NoSleepSSR.disable this with
      | (Throws v, this1) => (Some v, SSR this1, h)
      | (Normal, this1) => (None, SSR this1, h)
      end
  | call_enable o, Native this =>
      match NoSleepNative.enable o this h with
      | (Fulfilled, this1, h1) => (None, Native this1, h1)
      | (RejectedWith v, this1, h1) => (Some v, Native this1, h1)
      end
  | call_disable, Native this =>
      match NoSleepNative.disable this h with
      | (Normal, this1, h1) => (None, Native this1, h1)
      | (Throws v, this1, h1) => (Some v, Native this1, h1)
      end
  | call_enable o, Video this =>
      match NoSleepVideo.enable o this h with
      | (Fulfilled, this1, h1) => (None, Video this1, h1)
      | (RejectedWith v, this1, h1) => (Some v, Video this1, h1)
      end
  | call_disable, Video this =>
      match NoSleepVideo.disable this h with
      | (Normal, this1, h1) => (None, Video this1, h1)
      | (Throws v, this1, h1) => (Some v, Video this1, h1)
      end
  end.

(** A sequence of operations, one completing before the next starts. *)
Definition run (ops : list Operation) (i : Instance) (h : Host)
  : Instance * Host :=
  fold_left
    (fun st op => let '(_, i1, h1) := perform op st.1 st.2 in (i1, h1))
    ops (i, h).

(** Whether the operation is one that leaves the lock held: a call of
    [enable] whose platform call was granted, on a strategy that has a
    platform call to make. *)
Definition holds_lock (op : Operation) (i : Instance) : bool :=
  match i, op with
  | SSR _, _ => false
  | _, call_enable Granted => true
  | _, _ => false
  end.

(** ** Concrete environments and hosts, for the examples below *)

(** Safari on an iPhone with iOS 17.0, installed to the home screen. *)
Definition iphone_17_0_standalone : Navigator :=
  {| has_wakeLock := true;
     userAgent := "Mozilla/5.0 (iPhone; CPU iPhone OS 17_0 like Mac OS X) AppleWebKit/605.1.15 (KHTML, like Gecko) Mobile/15E148";
     standalone := Some true |}.

(** The same on an iPad with iPadOS 18.4. *)
Definition ipad_18_4_standalone : Navigator :=
  {| has_wakeLock := true;
     userAgent := "Mozilla/5.0 (iPad; CPU OS 18_4 like Mac OS X) AppleWebKit/605.1.15 (KHTML, like Gecko) Mobile/15E148";
     standalone := Some true |}.

(** A document of an [html] element with a [body], and one without. *)
Definition page : Document :=
  {| nodes := {[ 0%nat := with_childNodes [1%nat] (blank "html");
                 1%nat := with_parentNode (Some 0%nat) (blank "body") ]};
     body := Some 1%nat; visibilityState := visible;
     documentListeners := [] |}.

Definition page_without_body : Document :=
  {| nodes := {[ 0%nat := blank "html" ]};
     body := None; visibilityState := visible; documentListeners := [] |}.

Definition host_of (d : Document) : Host :=
  {| the_document := d; wakeLocks := ∅; console := []; random_calls := 0 |}.

Definition browser : Env :=
  {| navigator := Some iphone_17_0_standalone; document := Some page |}.



(** The spec's reading of the invariant on [enabled]: after the
    operation, the flag says whether that operation left the lock held. *)
Definition enabled_reflects (op : Operation) (i : Instance) (h : Host)
  : Prop :=
  enabled (perform op i h).1.2 = holds_lock op i.

(** The spec's reading of "logs the error": one more entry, an error. *)
Definition logs_error (before after : Host) : Prop :=
  exists msg, console after = (console before ++ [console_error msg])%list.

(** The instances right after construction on a blank page. *)
Definition fresh_native : NoSleepNative.t * Host :=
  NoSleepNative.constructor (host_of page).

(** ** What the constructor of [NoSleepVideo] builds *)

(** A [source] element as [_addSourceToVideo] leaves it. *)
Definition source_element (ty : NoSleepVideo.SourceType) (dataURI : string)
  (parent : nat) : Element :=
  {| tagName := "source"; attributes := ∅; src := dataURI;
     type := "video/" ++ NoSleepVideo.type_name ty; style := ∅;
     childNodes := []; parentNode := Some parent; listeners := [];
     duration := NaN; currentTime := Finite 0; paused := true |}.

(** The [video] element as the constructor leaves it, with its two
    sources and under [parent] (if any). *)
Definition video_element (s1 s2 : nat) (parent : option nat) : Element :=
  {| tagName := "video";
     attributes := <["playsinline" := ""]> (<["title" := "No Sleep"]> ∅);
     src := ""; type := "";
     style := <["top" := "-100%"]>
                (<["left" := "-100%"]> (<["position" := "absolute"]> ∅));
     childNodes := [s1; s2]; parentNode := parent;
     listeners := [("loadedmetadata", onLoadedMetadata)];
     duration := NaN; currentTime := Finite 0; paused := true |}.

(** The element is a child of the element that [querySelector('body')]
    answers, which is in the document. *)
Definition attached (d : Document) (id : nat) : bool :=
  match body d with
  | Some b =>
      match nodes d !! b, nodes d !! id with
      | Some be, Some e =>
          bool_decide (id ∈ childNodes be) &&
          bool_decide (parentNode e = Some b)
      | _, _ => false
      end
  | None => false
  end.

(** The [loop] property of a media element reflects its content
    attribute. *)
Definition loop (e : Element) : bool :=
  bool_decide (is_Some (attributes e !! "loop")).

(** A page whose [video] element, made by the constructor, is playing
    at position [t]. *)
Definition playing_at (t : Q) : NoSleepVideo.t * Host :=
  let '(this, h) := NoSleepVideo.constructor "mp4" "webm" (host_of page) in
  (this,
   with_document
     (update_node (NoSleepVideo.noSleepVideo this)
        (with_currentTime (Finite t)) (the_document h)) h).

(** ** Digit strings and events, for the further properties *)

Fixpoint all_digits (s : string) : bool :=
  match s with
  | EmptyString => true
  | String c t => is_digit c && all_digits t
  end.

Definition starts_with_digit (s : string) : bool :=
  match s with
  | String c _ => is_digit c
  | EmptyString => false
  end.

Fixpoint has_char (c : ascii) (s : string) : bool :=
  match s with
  | EmptyString => false
  | String a t => Ascii.eqb c a || has_char c t
  end.

(** Safari on a Mac: the user agent carries [OS X 10_15_7] but names no
    mobile device.  [standalone] is set to show that it is not read. *)
Definition mac_safari : Navigator :=
  {| has_wakeLock := true;
     userAgent := "Mozilla/5.0 (Macintosh; Intel Mac OS X 10_15_7) AppleWebKit/605.1.15 (KHTML, like Gecko) Version/17.0 Safari/605.1.15";
     standalone := Some true |}.

Definition desktop_safari_standalone : Env :=
  {| navigator := Some mac_safari; document := Some page |}.

Definition ipad_26_0_standalone : Navigator :=
  {| has_wakeLock := true;
     userAgent := "Mozilla/5.0 (iPad; CPU OS 26_0 like Mac OS X) AppleWebKit/605.1.15 (KHTML, like Gecko) Mobile/15E148";
     standalone := Some true |}.

(** [fullscreenchange] at the document; the visibility is as it was. *)
Definition fullscreenchange (o : Outcome) (this : NoSleepNative.t) (h : Host)
  : NoSleepNative.t * Host :=
  NoSleepNative.document_dispatchEvent "fullscreenchange" o this h.

(** Everything that can reach an instance of [NoSleepNative]: the two
    calls, a release by the platform, and the two document events its
    constructor listens to (with how the request settles, should the
    listener issue one). *)
Inductive NativeEvent : Type :=
| native_enable (o : Outcome)
| native_disable
| native_release (lock : nat)
| native_visibilitychange (v : VisibilityState) (o : Outcome)
| native_fullscreenchange (o : Outcome).

Definition native_step (ev : NativeEvent) (st : NoSleepNative.t * Host)
  : NoSleepNative.t * Host :=
  match ev with
  | native_enable o =>
      let '(_, this1, h1) := NoSleepNative.enable o st.1 st.2 in (this1, h1)
  | native_disable =>
      let '(_, this1, h1) := NoSleepNative.disable st.1 st.2 in (this1, h1)
  | native_release lock => (st.1, release lock st.2)
  | native_visibilitychange v o => NoSleepNative.visibilitychange v o st.1 st.2
  | native_fullscreenchange o => fullscreenchange o st.1 st.2
  end.

Definition native_run (evs : list NativeEvent) (st : NoSleepNative.t * Host)
  : NoSleepNative.t * Host :=
  fold_left (fun st ev => native_step ev st) evs st.

Definition is_Granted (o : Outcome) : bool :=
  match o with
  | Granted => true
  | Failed _ => false
  end.

#[global] Instance Listener_eq_dec : EqDecision Listener.
Proof. solve_decision. Defined.

(** The step of the dispatch loop, for one listener entry. *)
Definition listener_step (ty : string) (o : Outcome)
  (st : NoSleepNative.t * Host) (tl : string * Listener)
  : NoSleepNative.t * Host :=
  if String.eqb ty tl.1
  then match tl.2 with
       | handleVisibilityChange =>
           NoSleepNative.handleVisibilityChange_call o st.1 st.2
       | _ => st
       end
  else st.

(** The instance right after a granted [enable] on a blank page. *)
Definition native_holding : NoSleepNative.t * Host :=
  native_run [native_enable Granted] fresh_native.

(** The state in which [enabled] has something behind it: a stored
    handle names a sentinel of the host, and without a stored handle
    [enabled] is false. *)
Definition handle_known (this : NoSleepNative.t)
  (locks : gmap nat WakeLockSentinel) : Prop :=
  match NoSleepNative.wakeLock this with
  | Some lock => is_Some (locks !! lock)
  | None => NoSleepNative.enabled this = false
  end.

(** [n] events [loadedmetadata] in a row at the media element. *)
Definition metadata_events (random : nat -> Q) (this : NoSleepVideo.t)
  (n : nat) (h : Host) : Host :=
  Nat.iter n
    (fun h => (NoSleepVideo.dispatchEvent random "loadedmetadata" this h).2) h.



(** [new C()] for the constructor the selector chose in [env], run in
    [env]: the document the constructor works on is the [document]
    global of [env]; the other parts of the host are those of [h].  The
    constructors of [NoSleepNative] and [NoSleepVideo] begin with a call
    on that global, and where it is not defined the evaluation of the
    name throws a [ReferenceError]; [NoSleepSSR] has no constructor body
    and reads no global. *)
Definition construct (mp4 webm : string) (env : Env) (h : Host)
  : Thrown + Instance * Host :=
  match defaultExport env with
  | NoSleepSSR => inr (new mp4 webm NoSleepSSR h)
  | C =>
      match document env with
      | Some d => inr (new mp4 webm C (with_document d h))
      | None => inl (ErrorObject "ReferenceError" "document is not defined")
      end
  end.

(** * Properties *)

(** ** Version comparator *)

Lemma isVersionGTE_iff (a b : Version) :
  isVersionGTE a b = true <->
  (a.1 > b.1 \/ (a.1 = b.1 /\ a.2 >= b.2))%Z.
Proof.
  unfold isVersionGTE.
  rewrite orb_true_iff, andb_true_iff.
  rewrite Z.gtb_ltb, Z.ltb_lt, Z.eqb_eq, Z.geb_leb, Z.leb_le.
  lia.
Qed.

Lemma isVersionGTE_false_iff (a b : Version) :
  isVersionGTE a b = false <->
  (a.1 < b.1 \/ (a.1 = b.1 /\ a.2 < b.2))%Z.
Proof.
  rewrite <- not_true_iff_false, isVersionGTE_iff. lia.
Qed.

(** C9: [isVersionGTE a b] is true exactly when the major of [a] is
    greater, or the majors are equal and the minor of [a] is at least
    that of [b]; so it is reflexive, true from [(m, n+1)] to [(m, n)] and
    false from [(m, n)] to [(m, n+1)]. *)
Theorem isVersionGTE_lexicographic :
  (forall a b : Version,
      isVersionGTE a b = true <->
      (a.1 > b.1 \/ (a.1 = b.1 /\ a.2 >= b.2))%Z) /\
  (forall m n : Z, isVersionGTE (m, n) (m, n) = true) /\
  (forall m n : Z, isVersionGTE (m, n + 1)%Z (m, n) = true) /\
  (forall m n : Z, isVersionGTE (m, n) (m, n + 1)%Z = false).
Proof.
  split; [exact isVersionGTE_iff|].
  repeat split; intros m n.
  - apply isVersionGTE_iff; simpl; lia.
  - apply isVersionGTE_iff; simpl; lia.
  - apply isVersionGTE_false_iff; simpl; lia.
Qed.

(** ** Selector *)

Lemma shouldUseNative_parsed (nav : Navigator) (v : Version) :
  has_wakeLock nav = true ->
  getIOSVersion nav = Some v ->
  shouldUseNative nav = negb (truthy (standalone nav)) || isVersionGTE v (18, 4)%Z.
Proof.
  intros Hw Hv. unfold shouldUseNative. now rewrite Hw, Hv.
Qed.

(** C1: with a native wake lock and a user agent that parses to a
    version, the selector chooses [NoSleepNative] exactly when the page
    is not standalone or the version is at least (18, 4), and
    [NoSleepVideo] otherwise; so standalone (17, 0) gives [NoSleepVideo]
    and standalone (18, 4) gives [NoSleepNative]. *)
Theorem defaultExport_native_iff (env : Env) (nav : Navigator) (v : Version) :
  navigator env = Some nav ->
  has_wakeLock nav = true ->
  getIOSVersion nav = Some v ->
  (defaultExport env = NoSleepNative <->
     (truthy (standalone nav) = false \/ isVersionGTE v (18, 4)%Z = true)) /\
  (defaultExport env = NoSleepVideo <->
     ~ (truthy (standalone nav) = false \/ isVersionGTE v (18, 4)%Z = true)) /\
  (v = (17, 0)%Z -> standalone nav = Some true ->
     defaultExport env = NoSleepVideo) /\
  (v = (18, 4)%Z -> standalone nav = Some true ->
     defaultExport env = NoSleepNative).
Proof.
  intros Hnav Hw Hv. unfold defaultExport. rewrite Hnav.
  rewrite (shouldUseNative_parsed nav v Hw Hv).
  repeat split.
  - destruct (truthy (standalone nav)), (isVersionGTE v (18, 4)%Z);
      simpl; intros; try discriminate; auto.
  - intros [H | H]; rewrite H; [reflexivity | now rewrite orb_true_r].
  - destruct (truthy (standalone nav)), (isVersionGTE v (18, 4)%Z);
      simpl; intros H [H1 | H1]; discriminate.
  - destruct (truthy (standalone nav)), (isVersionGTE v (18, 4)%Z);
      simpl; intros H; try reflexivity; exfalso; apply H; auto.
  - intros -> ->. reflexivity.
  - intros -> ->. reflexivity.
Qed.

Lemma defaultExport_native_iff_witness :
  navigator browser = Some iphone_17_0_standalone /\
  has_wakeLock iphone_17_0_standalone = true /\
  getIOSVersion iphone_17_0_standalone = Some (17, 0)%Z /\
  defaultExport browser = NoSleepVideo.
Proof.
  assert (Hnav : navigator browser = Some iphone_17_0_standalone)
    by reflexivity.
  assert (Hw : has_wakeLock iphone_17_0_standalone = true) by reflexivity.
  assert (Hv : getIOSVersion iphone_17_0_standalone = Some (17, 0)%Z)
    by (vm_compute; reflexivity).
  split; [exact Hnav | split; [exact Hw | split; [exact Hv |]]].
  destruct (defaultExport_native_iff browser iphone_17_0_standalone
              (17, 0)%Z Hnav Hw Hv) as (_ & _ & H & _).
  apply H; reflexivity.
Defined.

Example defaultExport_ipad_18_4 :
  defaultExport {| navigator := Some ipad_18_4_standalone;
                   document := Some page |} = NoSleepNative.
Proof. vm_compute. reflexivity. Qed.

(** The selector never looks at the document. *)
Lemma defaultExport_ignores_document (env : Env) (d : option Document) :
  defaultExport {| navigator := navigator env; document := d |}
  = defaultExport env.
Proof. reflexivity. Qed.




(** And only there: with a [navigator] the choice is between the two
    real strategies. *)
Lemma defaultExport_SSR_iff (env : Env) :
  defaultExport env = NoSleepSSR <-> navigator env = None.
Proof.
  unfold defaultExport. destruct (navigator env) as [nav|].
  - destruct (shouldUseNative nav); split; discriminate.
  - split; reflexivity.
Qed.

(** ** NoSleepSSR *)

Lemma perform_SSR (op : Operation) (this : NoSleepSSR.t) (h : Host) :
  (perform op (SSR this) h).1.2 = SSR this.
Proof. destruct op; reflexivity. Qed.

Lemma run_SSR (ops : list Operation) (this : NoSleepSSR.t) (h : Host) :
  (run ops (SSR this) h).1 = SSR this.
Proof.
  unfold run. revert h. induction ops as [|op ops IH]; intros h; [reflexivity|].
  simpl. destruct op; simpl; apply IH.
Qed.

(** C4: on [NoSleepSSR] every [enable] and every [disable] throws the
    no-op-mode error, and [enabled], false at construction, is false
    after any sequence of operations. *)
Theorem NoSleepSSR_throws_and_stays_disabled :
  NoSleepSSR.enabled NoSleepSSR.constructor = false /\
  (forall this : NoSleepSSR.t,
      exists v, NoSleepSSR.enable this = (Throws v, this) /\
                ModeError v = true) /\
  (forall this : NoSleepSSR.t,
      exists v, NoSleepSSR.disable this = (Throws v, this) /\
                ModeError v = true) /\
  (forall (o : Outcome) (this : NoSleepSSR.t) (h : Host),
      exists v, perform (call_enable o) (SSR this) h = (Some v, SSR this, h) /\
                ModeError v = true) /\
  (forall (this : NoSleepSSR.t) (h : Host),
      exists v, perform call_disable (SSR this) h = (Some v, SSR this, h) /\
                ModeError v = true) /\
  (forall (ops : list Operation) (h : Host),
      enabled (run ops (SSR NoSleepSSR.constructor) h).1 = false).
Proof.
  split; [reflexivity|].
  split; [intros this; eexists; split; reflexivity|].
  split; [intros this; eexists; split; reflexivity|].
  split; [intros o this h; eexists; split; reflexivity|].
  split; [intros this h; eexists; split; reflexivity|].
  intros ops h. now rewrite run_SSR.
Qed.

(** ** The [enabled] flag *)

(** C3 as written fails: after a granted [enable], the platform
    releasing the sentinel leaves [enabled] true although the lock is no
    longer honoured. *)
Lemma enabled_stale_after_release :
  let '(i, h) :=
    run [call_enable Granted] (Native fresh_native.1) fresh_native.2 in
  let '(_, i1, h1) := perform (platform_release 0) i h in
  i = Native {| NoSleepNative.enabled := true;
                NoSleepNative.wakeLock := Some 0%nat |} /\
  enabled i1 = true /\
  active 0 h1 = false /\
  ~ enabled_reflects (platform_release 0) i h.
Proof.
  vm_compute. repeat split; discriminate.
Qed.

(** The strategy of an instance never changes. *)
Lemma perform_strategy (op : Operation) (i : Instance) (h : Host) :
  strategy_of (perform op i h).1.2 = strategy_of i.
Proof.
  destruct op as [o| |lock], i as [this|this|this]; try reflexivity.
  - destruct o; simpl; [|reflexivity].
    unfold NoSleepNative.enable. destruct (request_granted h). reflexivity.
  - destruct o; reflexivity.
Qed.

Lemma run_strategy (ops : list Operation) (i : Instance) (h : Host) :
  strategy_of (run ops i h).1 = strategy_of i.
Proof.
  unfold run. revert i h. induction ops as [|op ops IH]; intros i h.
  - reflexivity.
  - simpl. pose proof (perform_strategy op i h) as Hp.
    destruct (perform op i h) as [[r i1] h1]. simpl in Hp.
    rewrite IH. exact Hp.
Qed.

Lemma new_strategy (mp4 webm : string) (C : Strategy) (h : Host) :
  strategy_of (new mp4 webm C h).1 = C.
Proof.
  destruct C; try reflexivity.
  unfold new, bind.
  destruct (NoSleepVideo.constructor mp4 webm h). reflexivity.
Qed.

(** On the two real strategies the flag follows the last call from any
    state. *)
Lemma enabled_reflects_call (op : Operation) (i : Instance) (h : Host) :
  strategy_of i <> NoSleepSSR ->
  (forall lock, op <> platform_release lock) ->
  enabled_reflects op i h.
Proof.
  intros Hi Hop. unfold enabled_reflects.
  destruct i as [this|this|this]; [now elim Hi| |];
    destruct op as [[|err]| |lock]; try reflexivity;
    try (now elim (Hop lock)).
Qed.

Lemma enabled_after_release (lock : nat) (i : Instance) (h : Host) :
  enabled (perform (platform_release lock) i h).1.2 = enabled i.
Proof. reflexivity. Qed.

(** C3, amended: for an instance of any strategy, after any history of
    operations, a call of [enable] or [disable] leaves [enabled] true
    exactly when the call was an [enable] whose platform call was
    granted; a release by the platform leaves [enabled] as it was. *)
Theorem enabled_reflects_last_call (mp4 webm : string) (C : Strategy)
  (h0 : Host) (ops : list Operation) :
  let '(i0, h1) := new mp4 webm C h0 in
  let '(i, h) := run ops i0 h1 in
  (forall o : Outcome, enabled_reflects (call_enable o) i h) /\
  enabled_reflects call_disable i h /\
  (forall lock : nat,
      enabled (perform (platform_release lock) i h).1.2 = enabled i).
Proof.
  pose proof (new_strategy mp4 webm C h0) as HC.
  destruct (new mp4 webm C h0) as [i0 h1] eqn:Hnew. simpl in HC.
  pose proof (run_strategy ops i0 h1) as Hrun.
  destruct (run ops i0 h1) as [i h] eqn:Hr. simpl in Hrun.
  destruct C.
  - (* NoSleepSSR: the instance is the constructed one, unchanged *)
    inversion Hnew; subst i0 h1.
    pose proof (run_SSR ops NoSleepSSR.constructor h0) as Hs.
    rewrite Hr in Hs. simpl in Hs. subst i.
    split; [intros o; reflexivity|].
    split; [reflexivity | intros lock; reflexivity].
  - split; [intros o; apply enabled_reflects_call; [congruence | discriminate]|].
    split; [apply enabled_reflects_call; [congruence | discriminate]|].
    intros lock. apply enabled_after_release.
  - split; [intros o; apply enabled_reflects_call; [congruence | discriminate]|].
    split; [apply enabled_reflects_call; [congruence | discriminate]|].
    intros lock. apply enabled_after_release.
Qed.

(** ** Failure of the platform call in [enable] *)

(** C5: on [NoSleepNative] and [NoSleepVideo], when the platform call
    of [enable] fails, [enable] sets [enabled] to false, logs the error
    and its promise is fulfilled: nothing is raised to the caller.
    [navigator.wakeLock.request] and [play()] fail by rejecting the
    promise they return, and what they reject with is an instance of
    [Error] (a [DOMException] or a [TypeError]), with its name and its
    message; the console gets the line made of the two, the stored handle
    of [NoSleepNative] stays, and sentinels and document are untouched. *)
Theorem enable_failure_is_swallowed
  (native : NoSleepNative.t) (video : NoSleepVideo.t) (h : Host)
  (name message : string) :
  let err := ErrorObject name message in
  let entry := console_error (name ++ ", " ++ message) in
  (let '(r, this1, h1) := NoSleepNative.enable (Failed err) native h in
   r = Fulfilled /\
   NoSleepNative.enabled this1 = false /\
   NoSleepNative.wakeLock this1 = NoSleepNative.wakeLock native /\
   logs_error h h1 /\
   console h1 = (console h ++ [entry])%list /\
   wakeLocks h1 = wakeLocks h /\
   the_document h1 = the_document h /\
   perform (call_enable (Failed err)) (Native native) h
   = (None, Native this1, h1)) /\
  (let '(r, this1, h1) := NoSleepVideo.enable (Failed err) video h in
   r = Fulfilled /\
   NoSleepVideo.enabled this1 = false /\
   NoSleepVideo.noSleepVideo this1 = NoSleepVideo.noSleepVideo video /\
   logs_error h h1 /\
   console h1 = (console h ++ [entry])%list /\
   wakeLocks h1 = wakeLocks h /\
   the_document h1 = the_document h /\
   perform (call_enable (Failed err)) (Video video) h
   = (None, Video this1, h1)).
Proof.
  intros err entry.
  split; cbn; (repeat split); exists (name ++ ", " ++ message); reflexivity.
Qed.

(** ** [NoSleepNative.disable] *)

Lemma release_listeners_wakeLocks (ls : list Listener) (h : Host) :
  wakeLocks (fold_left (fun h l => run_release_listener l h) ls h)
  = wakeLocks h.
Proof.
  revert h. induction ls as [|l ls IH]; intros h; [reflexivity|].
  simpl. rewrite IH. destruct l; reflexivity.
Qed.

(** After the release steps the sentinel is no longer honoured. *)
Lemma release_inactive (lock : nat) (h : Host) :
  active lock (release lock h) = false.
Proof.
  unfold release, active.
  destruct (wakeLocks h !! lock) as [s|] eqn:Hs.
  - destruct (released s) eqn:Hr.
    + now rewrite Hs, Hr.
    + rewrite release_listeners_wakeLocks. simpl.
      now rewrite lookup_insert_eq.
  - now rewrite Hs.
Qed.

(** C6: [NoSleepNative.disable] returns normally from any state; after
    it the stored handle is cleared and [enabled] is false, a handle that
    was held is released, and a second [disable] changes nothing. *)
Theorem disable_clears_and_is_idempotent (this : NoSleepNative.t) (h : Host) :
  let '(c, this1, h1) := NoSleepNative.disable this h in
  c = Normal /\
  NoSleepNative.wakeLock this1 = None /\
  NoSleepNative.enabled this1 = false /\
  match NoSleepNative.wakeLock this with
  | Some lock => active lock h1 = false
  | None => h1 = h
  end /\
  NoSleepNative.disable this1 h1 = (Normal, this1, h1).
Proof.
  unfold NoSleepNative.disable. simpl.
  repeat split.
  destruct (NoSleepNative.wakeLock this) as [lock|].
  - apply release_inactive.
  - reflexivity.
Qed.

(** ** The constructor of [NoSleepVideo] *)

Lemma alter_lookup_Some {A} (f : A -> A) (i : nat) (x : A) (m : gmap nat A) :
  m !! i = Some x -> alter f i m = <[i := f x]> m.
Proof.
  intros H. apply map_eq. intros j. rewrite lookup_alter, lookup_insert.
  case_decide; [subst; now rewrite H | reflexivity].
Qed.

Lemma update_node_Some (id : nat) (f : Element -> Element) (e : Element)
  (M : gmap nat Element) (d : Document) :
  M !! id = Some e ->
  update_node id f (with_nodes M d) = with_nodes (<[id := f e]> M) d.
Proof.
  intros H. unfold update_node. simpl.
  now rewrite (alter_lookup_Some f id e M H).
Qed.

(** Appending an element that has no parent yet. *)
Lemma append_new_child (parent child : nat) (pe ce : Element)
  (M : gmap nat Element) (d : Document) :
  parent <> child ->
  M !! parent = Some pe ->
  M !! child = Some ce ->
  parentNode ce = None ->
  append parent child (with_nodes M d)
  = with_nodes
      (<[child := with_parentNode (Some parent) ce]>
         (<[parent := with_childNodes (childNodes pe ++ [child]) pe]> M)) d.
Proof.
  intros Hne Hp Hc Hnone. unfold append, remove_from_parent. simpl.
  rewrite Hc, Hnone.
  rewrite (update_node_Some parent _ pe M d Hp).
  apply update_node_Some. now rewrite lookup_insert_ne.
Qed.

Lemma addSourceToVideo_closed (element : nat) (ty : NoSleepVideo.SourceType)
  (uri : string) (e : Element) (M : gmap nat Element) (d : Document)
  (h : Host) :
  M !! element = Some e ->
  let s := fresh (dom M) in
  NoSleepVideo._addSourceToVideo element ty uri
    (with_document (with_nodes M d) h)
  = (tt,
     with_document
       (with_nodes
          (<[s := source_element ty uri element]>
             (<[element := with_childNodes (childNodes e ++ [s]) e]> M)) d)
       h).
Proof.
  intros He s.
  assert (Hs : M !! s = None) by (apply not_elem_of_dom, is_fresh).
  assert (Hne : element <> s) by congruence.
  unfold NoSleepVideo._addSourceToVideo, bind, document_createElement,
    on_document, createElement.
  cbn -[fresh dom append update_node].
  fold s.
  rewrite (update_node_Some s _ (blank "source")) by apply lookup_insert_eq.
  rewrite (update_node_Some s _ (with_src uri (blank "source")))
    by apply lookup_insert_eq.
  rewrite !insert_insert_eq.
  erewrite (append_new_child element s e);
    [| assumption | now rewrite lookup_insert_ne | apply lookup_insert_eq
     | reflexivity].
  rewrite (insert_insert_ne _ element s) by assumption.
  rewrite insert_insert_eq.
  reflexivity.
Qed.



Lemma insert_shadow {A} (i j : nat) (x y z : A) (m : gmap nat A) :
  i <> j ->
  <[i := x]> (<[j := y]> (<[i := z]> m)) = <[i := x]> (<[j := y]> m).
Proof.
  intros Hne.
  rewrite (insert_insert_ne _ j i) by congruence.
  now rewrite insert_insert_eq.
Qed.

(** The three new elements are new and distinct. *)
Lemma constructor_fresh_ids (N0 : gmap nat Element) :
  let video := fresh (dom N0) in
  let s1 := fresh ({[video]} ∪ dom N0) in
  let s2 := fresh ({[s1]} ∪ ({[video]} ∪ dom N0)) in
  (N0 !! video = None /\ N0 !! s1 = None /\ N0 !! s2 = None) /\
  (video <> s1 /\ video <> s2 /\ s1 <> s2).
Proof.
  intros video s1 s2.
  pose proof (is_fresh (dom N0)) as H0. fold video in H0.
  pose proof (is_fresh ({[video]} ∪ dom N0)) as H1. fold s1 in H1.
  pose proof (is_fresh ({[s1]} ∪ ({[video]} ∪ dom N0))) as H2. fold s2 in H2.
  repeat split; try (apply not_elem_of_dom; set_solver); set_solver.
Qed.

(** One more call of the constructor: run it on the host reached so
    far, keeping the map operations folded. *)
Ltac dom_simpl :=
  cbn -[fresh dom append update_node NoSleepVideo._addSourceToVideo bind].

Ltac dom_step := unfold bind at 1, on_document at 1; dom_simpl.

(** The constructor up to the style assignment, in closed form: the
    [video] element and its two sources are new, and the nodes of the
    document are otherwise as they were. *)
Lemma constructor_closed (mp4 webm : string) (h : Host) :
  let d := the_document h in
  let video := fresh (dom (nodes d)) in
  let s1 := fresh ({[video]} ∪ dom (nodes d)) in
  let s2 := fresh ({[s1]} ∪ ({[video]} ∪ dom (nodes d))) in
  let V := {| tagName := "video";
              attributes := attributes (video_element s1 s2 None);
              src := ""; type := "";
              style := style (video_element s1 s2 None);
              childNodes := [s1; s2]; parentNode := None; listeners := [];
              duration := NaN; currentTime := Finite 0; paused := true |} in
  let N :=
    <[video := V]>
      (<[s2 := source_element NoSleepVideo.type_mp4 mp4 video]>
         (<[s1 := source_element NoSleepVideo.type_webm webm video]>
            (nodes d))) in
  NoSleepVideo.constructor mp4 webm h
  = ({| NoSleepVideo.enabled := false; NoSleepVideo.noSleepVideo := video |},
     with_document
       (addEventListener video "loadedmetadata" onLoadedMetadata
          (match body d with
           | Some b => append b video (with_nodes N d)
           | None => with_nodes N d
           end)) h).
Proof.
  intros d video s1 s2 V N.
  pose proof (constructor_fresh_ids (nodes d)) as [_ (Hv1 & Hv2 & H12)].
  fold video s1 s2 in Hv1, Hv2, H12.
  unfold NoSleepVideo.constructor, setAttribute, assign_style, addEventListener.
  (* createElement('video') *)
  unfold bind at 1. unfold document_createElement at 1, createElement.
  dom_simpl. fold d video.
  (* the two setAttribute *)
  dom_step.
  rewrite (update_node_Some video _ (blank "video")) by apply lookup_insert_eq.
  rewrite insert_insert_eq.
  dom_step.
  erewrite update_node_Some by apply lookup_insert_eq.
  rewrite insert_insert_eq.
  (* the two sources *)
  unfold bind at 1.
  erewrite addSourceToVideo_closed by apply lookup_insert_eq.
  rewrite insert_insert_eq, dom_insert_L. fold s1.
  unfold bind at 1.
  erewrite addSourceToVideo_closed
    by (rewrite lookup_insert_ne by congruence; apply lookup_insert_eq).
  rewrite !dom_insert_L. fold s2.
  rewrite insert_shadow by congruence.
  (* Object.assign(style, ...) *)
  dom_step.
  erewrite update_node_Some
    by (rewrite lookup_insert_ne by congruence; apply lookup_insert_eq).
  rewrite insert_shadow by congruence.
  (* querySelector('body')?.append, addEventListener *)
  unfold bind at 1, querySelector_body at 1.
  dom_simpl.
  destruct (body d) as [b|]; reflexivity.
Qed.

(** C10: in a document without a body the constructor still returns the
    instance: the [video] element is created with both sources and
    stored, it has no parent, and every element the document had is as
    it was, so the new element was appended nowhere. *)
Theorem constructor_without_body (mp4 webm : string) (h : Host) :
  body (the_document h) = None ->
  exists s1 s2 : nat,
    let '(this, h1) := NoSleepVideo.constructor mp4 webm h in
    let video := NoSleepVideo.noSleepVideo this in
    let d := the_document h in
    let d1 := the_document h1 in
    NoSleepVideo.enabled this = false /\
    nodes d !! video = None /\
    nodes d1 !! video = Some (video_element s1 s2 None) /\
    nodes d1 !! s1 = Some (source_element NoSleepVideo.type_webm webm video) /\
    nodes d1 !! s2 = Some (source_element NoSleepVideo.type_mp4 mp4 video) /\
    (video <> s1 /\ video <> s2 /\ s1 <> s2) /\
    dom (nodes d1) = {[video]} ∪ ({[s2]} ∪ ({[s1]} ∪ dom (nodes d))) /\
    (forall j e, nodes d !! j = Some e -> nodes d1 !! j = Some e) /\
    attached d1 video = false.
Proof.
  intros Hb.
  pose proof (constructor_fresh_ids (nodes (the_document h)))
    as [(Hv & Hs1 & Hs2) (Hv1 & Hv2 & H12)].
  pose proof (constructor_closed mp4 webm h) as Hc. cbv zeta in Hc.
  set (video := fresh (dom (nodes (the_document h)))) in *.
  set (s1 := fresh ({[video]} ∪ dom (nodes (the_document h)))) in *.
  set (s2 := fresh ({[s1]} ∪ ({[video]} ∪ dom (nodes (the_document h))))) in *.
  exists s1, s2. rewrite Hc, Hb. clear Hc.
  unfold addEventListener.
  erewrite update_node_Some by apply lookup_insert_eq.
  rewrite insert_insert_eq.
  cbn -[fresh dom video_element source_element].
  fold video s1 s2.
  split; [reflexivity|].
  split; [exact Hv|].
  split; [now rewrite lookup_insert_eq|].
  split.
  { rewrite lookup_insert_ne by congruence.
    rewrite lookup_insert_ne by congruence. apply lookup_insert_eq. }
  split.
  { rewrite lookup_insert_ne by congruence. apply lookup_insert_eq. }
  split; [auto|].
  split; [now rewrite !dom_insert_L|].
  split.
  { intros j e Hj.
    rewrite !lookup_insert_ne by congruence. exact Hj. }
  unfold attached. simpl. now rewrite Hb.
Qed.

(** C8 as written fails: in a document without a body the constructor
    attaches the element it creates to nothing. *)
Lemma constructor_not_attached :
  let '(this, h1) :=
    NoSleepVideo.constructor "mp4" "webm" (host_of page_without_body) in
  attached (the_document h1) (NoSleepVideo.noSleepVideo this) = false /\
  (parentNode <$> nodes (the_document h1) !! NoSleepVideo.noSleepVideo this)
  = Some None.
Proof. vm_compute. split; reflexivity. Qed.

(** C8, amended: in a document that has a body, after the constructor
    exactly one [video] element is new, it is the last child of the body,
    and its children are exactly two [source] elements, of types
    [video/webm] and [video/mp4]. *)
Theorem constructor_attaches_video (mp4 webm : string) (h : Host)
  (b : nat) (be : Element) :
  body (the_document h) = Some b ->
  nodes (the_document h) !! b = Some be ->
  exists s1 s2 : nat,
    let '(this, h1) := NoSleepVideo.constructor mp4 webm h in
    let video := NoSleepVideo.noSleepVideo this in
    let d := the_document h in
    let d1 := the_document h1 in
    (nodes d !! video = None /\ nodes d !! s1 = None /\ nodes d !! s2 = None) /\
    (video <> s1 /\ video <> s2 /\ s1 <> s2) /\
    dom (nodes d1) = {[video]} ∪ ({[s2]} ∪ ({[s1]} ∪ dom (nodes d))) /\
    nodes d1 !! video = Some (video_element s1 s2 (Some b)) /\
    nodes d1 !! s1 = Some (source_element NoSleepVideo.type_webm webm video) /\
    nodes d1 !! s2 = Some (source_element NoSleepVideo.type_mp4 mp4 video) /\
    type (source_element NoSleepVideo.type_webm webm video)
    <> type (source_element NoSleepVideo.type_mp4 mp4 video) /\
    (forall j e, nodes d !! j = None -> nodes d1 !! j = Some e ->
                 tagName e = "video" -> j = video) /\
    body d1 = Some b /\
    nodes d1 !! b = Some (with_childNodes (childNodes be ++ [video]) be) /\
    attached d1 video = true.
Proof.
  intros Hb Hbe.
  pose proof (constructor_fresh_ids (nodes (the_document h)))
    as [(Hv & Hs1 & Hs2) (Hv1 & Hv2 & H12)].
  pose proof (constructor_closed mp4 webm h) as Hc. cbv zeta in Hc.
  set (video := fresh (dom (nodes (the_document h)))) in *.
  set (s1 := fresh ({[video]} ∪ dom (nodes (the_document h)))) in *.
  set (s2 := fresh ({[s1]} ∪ ({[video]} ∪ dom (nodes (the_document h))))) in *.
  assert (Hbv : b <> video) by congruence.
  assert (Hb1 : b <> s1) by congruence.
  assert (Hb2 : b <> s2) by congruence.
  exists s1, s2. rewrite Hc, Hb. clear Hc.
  erewrite (append_new_child b video be);
    [| assumption
     | rewrite !lookup_insert_ne by congruence; exact Hbe
     | apply lookup_insert_eq
     | reflexivity].
  unfold addEventListener.
  erewrite update_node_Some by apply lookup_insert_eq.
  rewrite insert_insert_eq.
  rewrite insert_shadow by congruence.
  cbn -[fresh dom video_element source_element].
  fold video s1 s2.
  split; [auto|]. split; [auto|].
  split.
  { rewrite dom_insert_L.
    rewrite dom_insert_lookup_L
      by (rewrite !lookup_insert_ne by congruence; eauto).
    now rewrite !dom_insert_L. }
  split; [rewrite lookup_insert_eq; reflexivity|].
  split.
  { rewrite !lookup_insert_ne by congruence. apply lookup_insert_eq. }
  split.
  { rewrite lookup_insert_ne by congruence.
    rewrite lookup_insert_ne by congruence.
    apply lookup_insert_eq. }
  split; [discriminate|].
  split.
  { intros j e Hold Hj Htag.
    destruct (decide (j = video)) as [|Hjv]; [assumption|].
    rewrite lookup_insert_ne in Hj by congruence.
    destruct (decide (j = b)) as [->|Hjb]; [congruence|].
    rewrite lookup_insert_ne in Hj by congruence.
    destruct (decide (j = s2)) as [->|Hj2].
    { rewrite lookup_insert_eq in Hj. inversion Hj; subst e. discriminate Htag. }
    rewrite lookup_insert_ne in Hj by congruence.
    destruct (decide (j = s1)) as [->|Hj1].
    { rewrite lookup_insert_eq in Hj. inversion Hj; subst e. discriminate Htag. }
    rewrite lookup_insert_ne in Hj by congruence. congruence. }
  split; [exact Hb|].
  split.
  { rewrite lookup_insert_ne by congruence. apply lookup_insert_eq. }
  unfold attached. cbn -[fresh dom video_element source_element].
  fold video s1 s2. rewrite Hb.
  rewrite (lookup_insert_ne _ video b) by congruence.
  rewrite !lookup_insert_eq.
  apply andb_true_intro. split; apply bool_decide_eq_true.
  - simpl. apply list_elem_of_In, in_or_app. right. now left.
  - reflexivity.
Qed.

Lemma constructor_attaches_video_witness :
  body (the_document (host_of page)) = Some 1%nat /\
  nodes (the_document (host_of page)) !! 1%nat
  = Some (with_parentNode (Some 0%nat) (blank "body")) /\
  let r := NoSleepVideo.constructor "mp4" "webm" (host_of page) in
  attached (the_document r.2) (NoSleepVideo.noSleepVideo r.1) = true.
Proof.
  assert (Hb : body (the_document (host_of page)) = Some 1%nat)
    by reflexivity.
  assert (Hbe : nodes (the_document (host_of page)) !! 1%nat
                = Some (with_parentNode (Some 0%nat) (blank "body")))
    by (vm_compute; reflexivity).
  split; [exact Hb | split; [exact Hbe |]].
  destruct (constructor_attaches_video "mp4" "webm" (host_of page) 1%nat _
              Hb Hbe) as (s1 & s2 & H).
  destruct (NoSleepVideo.constructor "mp4" "webm" (host_of page))
    as [this h1].
  apply H.
Defined.

Lemma constructor_without_body_witness :
  body (the_document (host_of page_without_body)) = None /\
  let r := NoSleepVideo.constructor "mp4" "webm" (host_of page_without_body) in
  attached (the_document r.2) (NoSleepVideo.noSleepVideo r.1) = false.
Proof.
  assert (Hb : body (the_document (host_of page_without_body)) = None)
    by reflexivity.
  split; [exact Hb|].
  destruct (constructor_without_body "mp4" "webm"
              (host_of page_without_body) Hb) as (s1 & s2 & H).
  destruct (NoSleepVideo.constructor "mp4" "webm" (host_of page_without_body))
    as [this h1].
  apply H.
Defined.

(** ** The listeners of [NoSleepVideo] *)





(** The listeners are reached through the events: with the listeners the
    constructor and the metadata listener add, [loadedmetadata] runs the
    metadata listener and [timeupdate] runs the position listener. *)
Lemma dispatchEvent_runs_listeners (random : nat -> Q)
  (this : NoSleepVideo.t) (h : Host) (e : Element) :
  nodes (the_document h) !! NoSleepVideo.noSleepVideo this = Some e ->
  (listeners e = [("loadedmetadata", onLoadedMetadata)] ->
   (NoSleepVideo.dispatchEvent random "loadedmetadata" this h).2
   = (NoSleepVideo.loadedmetadata_listener this h).2) /\
  (listeners e = [("loadedmetadata", onLoadedMetadata);
                  ("timeupdate", onTimeUpdate)] ->
   (NoSleepVideo.dispatchEvent random "timeupdate" this h).2
   = (NoSleepVideo.timeupdate_listener random this h).2) /\
  (listeners e = [("loadedmetadata", onLoadedMetadata)] ->
   (NoSleepVideo.dispatchEvent random "timeupdate" this h).2 = h).
Proof.
  intros He. unfold NoSleepVideo.dispatchEvent. rewrite He.
  repeat split; intros ->; reflexivity.
Qed.

(** ** The visibility listener of [NoSleepNative] *)

(** After construction on a document without other listeners, a change
    to visible re-issues [enable] when a handle is stored, and does
    nothing otherwise. *)
Lemma visibilitychange_reacquires (o : Outcome) (this : NoSleepNative.t)
  (h : Host) :
  documentListeners (the_document h)
  = [("visibilitychange", handleVisibilityChange);
     ("fullscreenchange", handleVisibilityChange)] ->
  let h1 := with_document (with_visibilityState visible (the_document h)) h in
  NoSleepNative.visibilitychange visible o this h
  = match NoSleepNative.wakeLock this with
    | Some _ =>
        let '(_, this1, h2) := NoSleepNative.enable o this h1 in (this1, h2)
    | None => (this, h1)
    end.
Proof.
  intros Hl h1.
  unfold NoSleepNative.visibilitychange, NoSleepNative.document_dispatchEvent.
  simpl. rewrite Hl. simpl.
  unfold NoSleepNative.handleVisibilityChange_call. simpl.
  destruct (NoSleepNative.wakeLock this); reflexivity.
Qed.

Example constructor_adds_visibility_listeners :
  documentListeners (the_document fresh_native.2)
  = [("visibilitychange", handleVisibilityChange);
     ("fullscreenchange", handleVisibilityChange)].
Proof. reflexivity. Qed.

(** * Further properties *)

(** ** The order on versions *)

Lemma isVersionGTE_chain (a b c : Version) :
  isVersionGTE a b = true ->
  isVersionGTE b c = true ->
  isVersionGTE a c = true.
Proof.
  rewrite !isVersionGTE_iff. lia.
Qed.

(** [isVersionGTE] is transitive: a version at least [b], which is at
    least [c], is at least [c]. *)
Theorem isVersionGTE_trans (a b c : Version) :
  isVersionGTE a b = true ->
  isVersionGTE b c = true ->
  isVersionGTE a c = true.
Proof.
  intros Hab Hbc. destruct a as [a1 a2], b as [b1 b2], c as [c1 c2].
  apply isVersionGTE_iff. apply isVersionGTE_iff in Hab, Hbc.
  simpl in *. lia.
Qed.

Lemma isVersionGTE_trans_witness :
  isVersionGTE (18, 4)%Z (17, 6)%Z = true /\
  isVersionGTE (17, 6)%Z (17, 0)%Z = true /\
  isVersionGTE (18, 4)%Z (17, 0)%Z = true.
Proof.
  assert (H1 : isVersionGTE (18, 4)%Z (17, 6)%Z = true) by reflexivity.
  assert (H2 : isVersionGTE (17, 6)%Z (17, 0)%Z = true) by reflexivity.
  split; [exact H1 | split; [exact H2 |]].
  exact (isVersionGTE_trans _ _ _ H1 H2).
Defined.

(** [isVersionGTE] is total, and it holds both ways only between equal
    versions: it is a total order on pairs. *)
Theorem isVersionGTE_total_antisym (a b : Version) :
  (isVersionGTE a b = true \/ isVersionGTE b a = true) /\
  (isVersionGTE a b = true /\ isVersionGTE b a = true <-> a = b) /\
  (isVersionGTE a b = false <-> isVersionGTE b a = true /\ a <> b).
Proof.
  rewrite !isVersionGTE_iff, isVersionGTE_false_iff.
  destruct a as [a1 a2], b as [b1 b2]. simpl.
  repeat split.
  - lia.
  - intros [H1 H2]. f_equal; lia.
  - inversion H; lia.
  - inversion H; lia.
  - lia.
  - intros E. inversion E. lia.
  - intros [H1 H2].
    destruct (Z.eq_dec a1 b1) as [->|]; [|lia].
    destruct (Z.eq_dec a2 b2) as [->|]; [now elim H2 | lia].
Qed.

(** ** Parsing the user agent *)

Lemma is_digit_value (c : ascii) :
  is_digit c = true -> (0 <= digit_value c <= 9)%Z.
Proof.
  unfold is_digit, digit_value. intros H.
  apply andb_true_iff in H as [H1 H2].
  apply Nat.leb_le in H1, H2. lia.
Qed.

Lemma Number_from_nonneg (s : string) (acc : Z) :
  all_digits s = true -> (0 <= acc)%Z -> (acc <= Number_from acc s)%Z.
Proof.
  revert acc. induction s as [|c t IH]; intros acc Hd Hacc; simpl.
  - lia.
  - simpl in Hd. apply andb_true_iff in Hd as [Hc Ht].
    pose proof (is_digit_value c Hc).
    specialize (IH (10 * acc + digit_value c)%Z Ht). lia.
Qed.

(** What [digits_prefix] splits off is a run of digits, as long as it
    can be. *)
Lemma digits_prefix_spec (s d r : string) :
  digits_prefix s = (d, r) ->
  s = (d ++ r)%string /\ all_digits d = true /\ starts_with_digit r = false.
Proof.
  revert d r. induction s as [|c t IH]; intros d r H; simpl in H.
  - inversion H. auto.
  - destruct (is_digit c) eqn:Hc.
    + destruct (digits_prefix t) as [d' r'] eqn:Ht. inversion H; subst.
      destruct (IH d' r eq_refl) as (-> & Hd & Hr).
      simpl. rewrite Hc. auto.
    + inversion H; subst. simpl. rewrite Hc. auto.
Qed.

Lemma digits_prefix_app (d r : string) :
  all_digits d = true -> starts_with_digit r = false ->
  digits_prefix (d ++ r) = (d, r).
Proof.
  intros Hd Hr. induction d as [|c t IH]; simpl.
  - destruct r as [|c r']; [reflexivity|]. simpl in *. now rewrite Hr.
  - simpl in Hd. apply andb_true_iff in Hd as [Hc Ht].
    rewrite Hc, (IH Ht). reflexivity.
Qed.

Lemma match_OS_here_groups (s major minor : string) :
  match_OS_here s = Some (major, minor) ->
  (all_digits major = true /\ major <> EmptyString) /\
  (all_digits minor = true /\ minor <> EmptyString).
Proof.
  unfold match_OS_here. intros H.
  destruct (strip_prefix "OS " s) as [r|]; [|discriminate].
  destruct (digits_prefix r) as [d1 r1] eqn:H1.
  destruct d1 as [|c1 d1]; [discriminate|].
  destruct r1 as [|u r2]; [discriminate|].
  destruct (digits_prefix_spec _ _ _ H1) as (_ & Hd1 & _).
  destruct (digits_prefix r2) as [d2 r3] eqn:H2.
  destruct (digits_prefix_spec _ _ _ H2) as (_ & Hd2 & _).
  destruct u as [[] [] [] [] [] [] [] []]; try discriminate.
  destruct d2 as [|c2 d2]; [discriminate|].
  inversion H; subst. repeat split; auto; discriminate.
Qed.

Lemma match_OS_groups (s major minor : string) :
  match_OS s = Some (major, minor) ->
  (all_digits major = true /\ major <> EmptyString) /\
  (all_digits minor = true /\ minor <> EmptyString).
Proof.
  induction s as [|c t IH]; simpl; intros H.
  - discriminate H.
  - destruct (match_OS_here (String c t)) as [m|] eqn:Hm.
    + inversion H; subst. now apply match_OS_here_groups in Hm.
    + auto.
Qed.

Lemma string_app_assoc (x y z : string) :
  ((x ++ y) ++ z = x ++ (y ++ z))%string.
Proof.
  induction x as [|c x IH]; [reflexivity|].
  change (String c ((x ++ y) ++ z) = String c (x ++ (y ++ z)))%string.
  now rewrite IH.
Qed.

Lemma prefix_append (x y : string) : String.prefix x (x ++ y) = true.
Proof.
  induction x as [|c x IH]; [now destruct y|].
  change (String c x ++ y)%string with (String c (x ++ y)).
  cbn [String.prefix]. destruct (ascii_dec c c); [exact IH | congruence].
Qed.

Lemma strip_prefix_spec (p s r : string) :
  strip_prefix p s = Some r -> s = (p ++ r)%string.
Proof.
  revert s. induction p as [|a p IH]; intros s H.
  - inversion H. reflexivity.
  - destruct s as [|c s]; [discriminate|]. cbn [strip_prefix] in H.
    destruct (Ascii.eqb_spec a c) as [->|]; [|discriminate].
    change (String c p ++ r)%string with (String c (p ++ r)).
    now rewrite (IH s H).
Qed.

(** Where the pattern matches at the start of [s], [s] starts with
    [OS], the first group, an underscore and the second group. *)
Lemma match_OS_here_occurs (s major minor : string) :
  match_OS_here s = Some (major, minor) ->
  String.prefix ("OS " ++ major ++ "_" ++ minor) s = true.
Proof.
  unfold match_OS_here. intros H.
  destruct (strip_prefix "OS " s) as [r|] eqn:Hs; [|discriminate].
  apply strip_prefix_spec in Hs.
  destruct (digits_prefix r) as [d1 r1] eqn:H1.
  destruct d1 as [|c1 d1]; [discriminate|].
  destruct r1 as [|u r2]; [discriminate|].
  destruct (digits_prefix_spec _ _ _ H1) as (Hr & _ & _).
  destruct (digits_prefix r2) as [d2 r3] eqn:H2.
  destruct (digits_prefix_spec _ _ _ H2) as (Hr2 & _ & _).
  destruct (Ascii.eqb_spec u "_") as [->|Hu].
  - destruct d2 as [|c2 d2]; [discriminate|].
    inversion H; subst major minor.
    rewrite Hs, Hr, Hr2.
    replace ("OS " ++ String c1 d1 ++ String "_" (String c2 d2 ++ r3))%string
      with (("OS " ++ String c1 d1 ++ "_" ++ String c2 d2) ++ r3)%string.
    + apply prefix_append.
    + rewrite !string_app_assoc. reflexivity.
  - exfalso. destruct u as [[] [] [] [] [] [] [] []]; try discriminate.
    now elim Hu.
Qed.

Lemma match_OS_occurs (s major minor : string) :
  match_OS s = Some (major, minor) ->
  includes ("OS " ++ major ++ "_" ++ minor) s = true.
Proof.
  induction s as [|c t IH]; cbn [match_OS]; intros H.
  - destruct (match_OS_here "") as [m|] eqn:Hm; [|discriminate].
    inversion H; subst. apply match_OS_here_occurs in Hm.
    cbn [includes]. now rewrite Hm.
  - cbn [includes].
    destruct (match_OS_here (String c t)) as [m|] eqn:Hm.
    + inversion H; subst. apply match_OS_here_occurs in Hm. now rewrite Hm.
    + rewrite (IH H). apply orb_true_r.
Qed.

(** A version that [getIOSVersion] answers is [Number] of two runs of
    ASCII digits, neither empty, that stand in the user agent as
    [OS major_minor]; neither component is negative, and the user agent
    names an Apple mobile device. *)
Theorem getIOSVersion_components (nav : Navigator) (v : Version) :
  getIOSVersion nav = Some v ->
  exists major minor : string,
    v = (Number major, Number minor) /\
    (all_digits major = true /\ major <> EmptyString) /\
    (all_digits minor = true /\ minor <> EmptyString) /\
    includes ("OS " ++ major ++ "_" ++ minor) (userAgent nav) = true /\
    ((0 <= v.1)%Z /\ (0 <= v.2)%Z) /\
    (includes "iPod" (userAgent nav) || includes "iPhone" (userAgent nav)
     || includes "iPad" (userAgent nav)) = true.
Proof.
  unfold getIOSVersion. intros H.
  destruct (includes "iPod" (userAgent nav) || includes "iPhone" (userAgent nav)
            || includes "iPad" (userAgent nav)); [|discriminate].
  cbn [negb] in H.
  destruct (match_OS (userAgent nav)) as [[major minor]|] eqn:Hm;
    [|discriminate].
  destruct (match_OS_groups _ _ _ Hm) as [[H1 N1] [H2 N2]].
  inversion H; subst v. exists major, minor.
  split; [reflexivity|]. split; [auto|]. split; [auto|].
  split; [now apply match_OS_occurs|].
  split; [|reflexivity].
  split; apply Number_from_nonneg; auto; lia.
Qed.

Lemma getIOSVersion_components_witness :
  getIOSVersion iphone_17_0_standalone = Some (17, 0)%Z /\
  exists major minor : string,
    (17, 0)%Z = (Number major, Number minor) /\
    includes ("OS " ++ major ++ "_" ++ minor)
      (userAgent iphone_17_0_standalone) = true.
Proof.
  assert (H : getIOSVersion iphone_17_0_standalone = Some (17, 0)%Z)
    by (vm_compute; reflexivity).
  split; [exact H|].
  destruct (getIOSVersion_components _ _ H)
    as (major & minor & Hv & _ & _ & Hin & _).
  exists major, minor. split; [exact Hv | exact Hin].
Defined.

Lemma match_OS_here_formatted (major minor rest : string) :
  all_digits major = true -> major <> EmptyString ->
  all_digits minor = true -> minor <> EmptyString ->
  starts_with_digit rest = false ->
  match_OS_here ("OS " ++ major ++ "_" ++ minor ++ rest)
  = Some (major, minor).
Proof.
  intros H1 N1 H2 N2 Hr. unfold match_OS_here.
  change (strip_prefix "OS " ("OS " ++ major ++ "_" ++ minor ++ rest))
    with (Some (major ++ "_" ++ minor ++ rest))%string.
  cbv beta iota.
  rewrite (digits_prefix_app major ("_" ++ minor ++ rest) H1 eq_refl).
  destruct major as [|c1 major]; [now elim N1|].
  simpl.
  change ("" ++ minor ++ rest)%string with (minor ++ rest)%string.
  rewrite (digits_prefix_app minor rest H2 Hr).
  destruct minor as [|c2 minor]; [now elim N2|]. reflexivity.
Qed.

Lemma match_OS_skips (p s : string) :
  has_char "O" p = false -> match_OS (p ++ s) = match_OS s.
Proof.
  induction p as [|c p IH]; intros H; [reflexivity|].
  cbn [has_char] in H. apply orb_false_iff in H as [Hc Hp].
  change (String c p ++ s)%string with (String c (p ++ s)).
  cbn [match_OS]. unfold match_OS_here at 1. cbn [strip_prefix].
  rewrite Hc. now apply IH.
Qed.

(** Parsing what was formatted: a user agent that names the device and
    carries [OS major_minor], with no capital O before it, parses to the
    two numbers. *)
Theorem getIOSVersion_formatted (nav : Navigator)
  (p major minor rest : string) :
  userAgent nav = (p ++ "OS " ++ major ++ "_" ++ minor ++ rest)%string ->
  (includes "iPod" (userAgent nav) || includes "iPhone" (userAgent nav)
   || includes "iPad" (userAgent nav)) = true ->
  has_char "O" p = false ->
  all_digits major = true -> major <> EmptyString ->
  all_digits minor = true -> minor <> EmptyString ->
  starts_with_digit rest = false ->
  getIOSVersion nav = Some (Number major, Number minor).
Proof.
  intros Hua Hdev Hp H1 N1 H2 N2 Hr. unfold getIOSVersion.
  rewrite Hdev. cbn [negb]. rewrite Hua, (match_OS_skips p _ Hp).
  assert (Hm : match_OS ("OS " ++ major ++ "_" ++ minor ++ rest)
               = Some (major, minor)).
  { change ("OS " ++ major ++ "_" ++ minor ++ rest)%string
      with (String "O" ("S " ++ major ++ "_" ++ minor ++ rest)).
    cbn [match_OS].
    change (String "O" ("S " ++ major ++ "_" ++ minor ++ rest))
      with ("OS " ++ major ++ "_" ++ minor ++ rest)%string.
    now rewrite (match_OS_here_formatted major minor rest). }
  now rewrite Hm.
Qed.

Lemma getIOSVersion_formatted_witness :
  getIOSVersion ipad_18_4_standalone = Some (Number "18", Number "4").
Proof.
  apply (getIOSVersion_formatted ipad_18_4_standalone
           "Mozilla/5.0 (iPad; CPU " "18" "4"
           " like Mac OS X) AppleWebKit/605.1.15 (KHTML, like Gecko) Mobile/15E148");
    try reflexivity; discriminate.
Defined.

(** ** The selector, case by case *)

Lemma shouldUseNative_true_iff (nav : Navigator) :
  shouldUseNative nav = true <->
  has_wakeLock nav = true /\
  match getIOSVersion nav with
  | None => True
  | Some v => truthy (standalone nav) = false \/
              isVersionGTE v (18, 4)%Z = true
  end.
Proof.
  unfold shouldUseNative.
  destruct (has_wakeLock nav); cbn [negb].
  - destruct (getIOSVersion nav) as [v|]; [|tauto].
    rewrite orb_true_iff, negb_true_iff. tauto.
  - split; [discriminate | intros [H _]; discriminate H].
Qed.

Lemma shouldUseNative_false_iff (nav : Navigator) :
  shouldUseNative nav = false <->
  has_wakeLock nav = false \/
  exists v, getIOSVersion nav = Some v /\
            truthy (standalone nav) = true /\
            isVersionGTE v (18, 4)%Z = false.
Proof.
  unfold shouldUseNative.
  destruct (has_wakeLock nav); cbn [negb].
  - destruct (getIOSVersion nav) as [v|].
    + rewrite orb_false_iff, negb_false_iff. split.
      * intros [H1 H2]. right. exists v. auto.
      * intros [H | (v' & E & H1 & H2)]; [discriminate|].
        inversion E; subst. auto.
    + split; [discriminate|].
      intros [H | (v' & E & _)]; discriminate.
  - split; auto.
Qed.

(** The native strategy is chosen exactly with a [navigator] that has
    [wakeLock] and either no iOS version in its user agent, or a page
    that is not standalone, or a version from (18, 4) on; the video
    strategy with every other [navigator]. *)
Theorem defaultExport_cases (env : Env) :
  (defaultExport env = NoSleepNative <->
   exists nav, navigator env = Some nav /\ has_wakeLock nav = true /\
     match getIOSVersion nav with
     | None => True
     | Some v => truthy (standalone nav) = false \/
                 isVersionGTE v (18, 4)%Z = true
     end) /\
  (defaultExport env = NoSleepVideo <->
   exists nav, navigator env = Some nav /\
     (has_wakeLock nav = false \/
      exists v, getIOSVersion nav = Some v /\
                truthy (standalone nav) = true /\
                isVersionGTE v (18, 4)%Z = false)).
Proof.
  unfold defaultExport.
  destruct (navigator env) as [nav|].
  - destruct (shouldUseNative nav) eqn:Hn.
    + split; split; try discriminate; try reflexivity.
      * intros _. exists nav. split; [reflexivity|].
        now apply shouldUseNative_true_iff.
      * intros (n & E & H). inversion E; subst n.
        apply shouldUseNative_false_iff in H. congruence.
    + split; split; try discriminate; try reflexivity.
      * intros (n & E & H). inversion E; subst n.
        apply shouldUseNative_true_iff in H. congruence.
      * intros _. exists nav. split; [reflexivity|].
        now apply shouldUseNative_false_iff.
  - split; split; try discriminate; intros (n & E & _); discriminate.
Qed.

Lemma includes_none_getIOSVersion (nav : Navigator) :
  (includes "iPod" (userAgent nav) || includes "iPhone" (userAgent nav)
   || includes "iPad" (userAgent nav)) = false ->
  getIOSVersion nav = None.
Proof. intros H. unfold getIOSVersion. now rewrite H. Qed.

(** Off iOS the page's [standalone] flag plays no part: with a user
    agent that names no iPod, iPhone or iPad the choice is the native
    strategy when [navigator] has [wakeLock] and the video strategy when
    it has not, whatever the user agent says about versions. *)
Theorem defaultExport_off_iOS (env : Env) (nav : Navigator) :
  navigator env = Some nav ->
  (includes "iPod" (userAgent nav) || includes "iPhone" (userAgent nav)
   || includes "iPad" (userAgent nav)) = false ->
  defaultExport env
  = if has_wakeLock nav then NoSleepNative else NoSleepVideo.
Proof.
  intros Hnav Hua. unfold defaultExport, shouldUseNative.
  rewrite Hnav, (includes_none_getIOSVersion nav Hua).
  now destruct (has_wakeLock nav).
Qed.

Lemma defaultExport_off_iOS_witness :
  defaultExport desktop_safari_standalone = NoSleepNative.
Proof.
  apply (defaultExport_off_iOS desktop_safari_standalone
           mac_safari); reflexivity.
Defined.

(** A newer system never loses the native strategy: if it is chosen
    with version [v], it is chosen with every version at least [v], the
    rest of the [navigator] being the same. *)
Theorem shouldUseNative_monotone (nav nav' : Navigator) (v v' : Version) :
  has_wakeLock nav' = has_wakeLock nav ->
  standalone nav' = standalone nav ->
  getIOSVersion nav = Some v ->
  getIOSVersion nav' = Some v' ->
  isVersionGTE v' v = true ->
  shouldUseNative nav = true ->
  shouldUseNative nav' = true.
Proof.
  unfold shouldUseNative. intros Hw Hs Hv Hv' Hge.
  rewrite Hw, Hs, Hv, Hv'.
  destruct (has_wakeLock nav); cbn [negb]; [|discriminate].
  destruct (truthy (standalone nav)); cbn [negb orb]; [|reflexivity].
  intros H. exact (isVersionGTE_chain _ _ _ Hge H).
Qed.

Lemma shouldUseNative_monotone_witness :
  shouldUseNative ipad_18_4_standalone = true /\
  shouldUseNative ipad_26_0_standalone = true.
Proof.
  assert (H : shouldUseNative ipad_18_4_standalone = true)
    by (vm_compute; reflexivity).
  split; [exact H|].
  apply (shouldUseNative_monotone ipad_18_4_standalone ipad_26_0_standalone
           (18, 4)%Z (26, 0)%Z); try reflexivity; try exact H;
    vm_compute; reflexivity.
Defined.

(** ** Sentinels *)

Lemma release_listeners_document (ls : list Listener) (h : Host) :
  the_document (fold_left (fun h l => run_release_listener l h) ls h)
  = the_document h.
Proof.
  revert h. induction ls as [|l ls IH]; intros h; [reflexivity|].
  simpl. rewrite IH. destruct l; reflexivity.
Qed.

Lemma release_other (lock other : nat) (h : Host) :
  lock <> other ->
  wakeLocks (release lock h) !! other = wakeLocks h !! other.
Proof.
  intros Hne. unfold release.
  destruct (wakeLocks h !! lock) as [s|]; [|reflexivity].
  destruct (released s); [reflexivity|].
  rewrite release_listeners_wakeLocks. simpl.
  now rewrite lookup_insert_ne.
Qed.

Lemma release_keeps_sentinels (lock l : nat) (h : Host) :
  is_Some (wakeLocks h !! l) -> is_Some (wakeLocks (release lock h) !! l).
Proof.
  intros Hl. destruct (decide (lock = l)) as [->|Hne].
  - unfold release. destruct (wakeLocks h !! l) as [s|] eqn:Hs;
      [|now rewrite Hs].
    destruct (released s); [now rewrite Hs|].
    rewrite release_listeners_wakeLocks. simpl.
    rewrite lookup_insert_eq. eauto.
  - now rewrite release_other.
Qed.

(** The release steps touch one sentinel and nothing else, do nothing on
    a sentinel that is not active, and so do nothing the second time. *)
Theorem release_once (lock : nat) (h : Host) :
  release lock (release lock h) = release lock h /\
  (active lock h = false -> release lock h = h) /\
  (forall other, lock <> other ->
     wakeLocks (release lock h) !! other = wakeLocks h !! other) /\
  the_document (release lock h) = the_document h.
Proof.
  assert (Hidle : forall h', active lock h' = false -> release lock h' = h').
  { intros h'. unfold active, release.
    destruct (wakeLocks h' !! lock) as [s|]; [|reflexivity].
    destruct (released s); [reflexivity | discriminate]. }
  split; [apply Hidle, release_inactive|].
  split; [apply Hidle|].
  split; [intros other; apply release_other|].
  unfold release.
  destruct (wakeLocks h !! lock) as [s|]; [|reflexivity].
  destruct (released s); [reflexivity|].
  now rewrite release_listeners_document.
Qed.

(** ** [NoSleepNative.enable] and [disable] together *)

(** A granted [enable] stores a sentinel the host did not have, active
    and with the one logging listener; it logs, and leaves every other
    sentinel and the document as they were. *)
Theorem enable_granted_new_sentinel (this : NoSleepNative.t) (h : Host) :
  let '(r, this1, h1) := NoSleepNative.enable Granted this h in
  exists lock : nat,
    r = Fulfilled /\
    this1 = {| NoSleepNative.enabled := true;
               NoSleepNative.wakeLock := Some lock |} /\
    wakeLocks h !! lock = None /\
    wakeLocks h1 !! lock
    = Some {| released := false; releaseListeners := [onRelease] |} /\
    active lock h1 = true /\
    (forall other, lock <> other ->
       wakeLocks h1 !! other = wakeLocks h !! other) /\
    console h1 = (console h ++ [console_debug "Wake Lock active."])%list /\
    the_document h1 = the_document h.
Proof.
  unfold NoSleepNative.enable, request_granted, sentinel_addEventListener,
    active.
  cbn -[fresh dom].
  set (lock := fresh (dom (wakeLocks h))).
  assert (Hfresh : wakeLocks h !! lock = None)
    by (apply not_elem_of_dom, is_fresh).
  exists lock.
  rewrite lookup_alter_eq, lookup_insert_eq. cbn.
  repeat split; try assumption.
  intros other Hne. now rewrite lookup_alter_ne, lookup_insert_ne.
Qed.

(** A granted [enable] followed by [disable]: the instance is back to
    disabled without a handle, the sentinel it got is released, the
    console has the two lines, and the sentinels the host had before are
    as they were. *)
Theorem enable_then_disable (this : NoSleepNative.t) (h : Host) :
  let '(this2, h2) :=
    native_run [native_enable Granted; native_disable] (this, h) in
  let lock := fresh (dom (wakeLocks h)) in
  this2 = {| NoSleepNative.enabled := false;
             NoSleepNative.wakeLock := None |} /\
  wakeLocks h !! lock = None /\
  wakeLocks h2 !! lock
  = Some {| released := true; releaseListeners := [onRelease] |} /\
  (forall other, lock <> other ->
     wakeLocks h2 !! other = wakeLocks h !! other) /\
  console h2 = (console h ++ [console_debug "Wake Lock active.";
                              console_debug "Wake Lock released."])%list /\
  the_document h2 = the_document h.
Proof.
  unfold native_run. cbn -[fresh dom release].
  unfold request_granted, sentinel_addEventListener, release.
  cbn -[fresh dom].
  set (lock := fresh (dom (wakeLocks h))).
  assert (Hfresh : wakeLocks h !! lock = None)
    by (apply not_elem_of_dom, is_fresh).
  rewrite lookup_alter_eq, lookup_insert_eq. cbn.
  rewrite lookup_insert_eq.
  repeat split; try assumption.
  - intros other Hne.
    now rewrite lookup_insert_ne, lookup_alter_ne, lookup_insert_ne.
  - now rewrite <- app_assoc.
Qed.

(** ** The document listeners of [NoSleepNative] *)

Lemma log_if_Error_frame (err : Thrown) (h : Host) :
  wakeLocks (log_if_Error err h) = wakeLocks h /\
  the_document (log_if_Error err h) = the_document h.
Proof. destruct err; split; reflexivity. Qed.

Lemma enable_document (o : Outcome) (this : NoSleepNative.t) (h : Host) :
  the_document (NoSleepNative.enable o this h).2 = the_document h.
Proof.
  destruct o as [|err]; [reflexivity|]. simpl.
  apply log_if_Error_frame.
Qed.

Lemma document_dispatchEvent_fold (ty : string) (o : Outcome)
  (this : NoSleepNative.t) (h : Host) :
  NoSleepNative.document_dispatchEvent ty o this h
  = fold_left (listener_step ty o) (documentListeners (the_document h))
      (this, h).
Proof. reflexivity. Qed.






Lemma handleVisibilityChange_call_visible (o : Outcome)
  (this : NoSleepNative.t) (h : Host) :
  is_Some (NoSleepNative.wakeLock this) ->
  visibilityState (the_document h) = visible ->
  let st := NoSleepNative.handleVisibilityChange_call o this h in
  NoSleepNative.enabled st.1 = is_Granted o /\
  is_Some (NoSleepNative.wakeLock st.1) /\
  visibilityState (the_document st.2) = visible /\
  (is_Granted o = false ->
   NoSleepNative.wakeLock st.1 = NoSleepNative.wakeLock this /\
   wakeLocks st.2 = wakeLocks h).
Proof.
  intros [l Hl] Hv. unfold NoSleepNative.handleVisibilityChange_call.
  rewrite Hl, Hv.
  destruct o as [|err].
  - cbn -[fresh dom].
    split; [reflexivity|]. split; [eauto|]. split; [exact Hv|].
    discriminate.
  - cbn -[log_if_Error].
    destruct (log_if_Error_frame err h) as [Hw Hd].
    rewrite Hd, Hw, Hl. repeat split; eauto.
Qed.

Lemma listeners_reacquire (ty : string) (o : Outcome)
  (ls : list (string * Listener)) (this : NoSleepNative.t) (h : Host) :
  is_Some (NoSleepNative.wakeLock this) ->
  visibilityState (the_document h) = visible ->
  let st := fold_left (listener_step ty o) ls (this, h) in
  is_Some (NoSleepNative.wakeLock st.1) /\
  (In (ty, handleVisibilityChange) ls ->
   NoSleepNative.enabled st.1 = is_Granted o) /\
  (~ In (ty, handleVisibilityChange) ls -> st = (this, h)) /\
  (is_Granted o = false ->
   NoSleepNative.wakeLock st.1 = NoSleepNative.wakeLock this /\
   wakeLocks st.2 = wakeLocks h).
Proof.
  revert this h. induction ls as [|[ty' l] ls IH]; intros this h Hl Hv.
  - simpl. repeat split; auto. intros [].
  - cbn [fold_left].
    destruct (decide ((ty', l) = (ty, handleVisibilityChange))) as [E|Hne].
    + inversion E; subst ty' l.
      assert (Hstep : listener_step ty o (this, h) (ty, handleVisibilityChange)
                      = NoSleepNative.handleVisibilityChange_call o this h).
      { unfold listener_step. cbn [fst snd]. now rewrite String.eqb_refl. }
      rewrite Hstep. clear Hstep.
      pose proof (handleVisibilityChange_call_visible o this h Hl Hv)
        as (He & Hl1 & Hv1 & Hf).
      destruct (NoSleepNative.handleVisibilityChange_call o this h)
        as [this1 h1]. cbn [fst snd] in *.
      destruct (IH this1 h1 Hl1 Hv1) as (I1 & I2 & I3 & I4).
      split; [exact I1|]. split.
      * intros _.
        destruct (decide ((ty, handleVisibilityChange) ∈ ls)) as [Hin|Hnin].
        -- apply I2. now apply list_elem_of_In.
        -- rewrite I3; [exact He|].
           intros Hin. apply Hnin. now apply list_elem_of_In.
      * split; [intros Hn; elim Hn; now left|].
        intros Ho. destruct (Hf Ho) as [F1 F2], (I4 Ho) as [G1 G2].
        split; congruence.
    + assert (Hs : listener_step ty o (this, h) (ty', l) = (this, h)).
      { unfold listener_step. cbn [fst snd].
        destruct (String.eqb ty ty') eqn:Ety; [|reflexivity].
        apply String.eqb_eq in Ety. subst ty'.
        destruct l; try reflexivity. now elim Hne. }
      rewrite Hs. destruct (IH this h Hl Hv) as (I1 & I2 & I3 & I4).
      split; [exact I1|]. split.
      * intros [E|Hin]; [now elim Hne | now apply I2].
      * split; [|exact I4].
        intros Hn. apply I3. intros Hin. apply Hn. now right.
Qed.

(** With a handle stored and the document visible, an event the
    constructor listens to re-issues [enable]: afterwards [enabled] says
    whether that request was granted, whatever it said before, and a
    handle is still stored; when the request fails the stored handle and
    the sentinels are as they were, so the next event tries again. *)
Theorem document_dispatchEvent_reacquires (ty : string) (o : Outcome)
  (this : NoSleepNative.t) (h : Host) :
  is_Some (NoSleepNative.wakeLock this) ->
  visibilityState (the_document h) = visible ->
  In (ty, handleVisibilityChange) (documentListeners (the_document h)) ->
  let st := NoSleepNative.document_dispatchEvent ty o this h in
  NoSleepNative.enabled st.1 = is_Granted o /\
  is_Some (NoSleepNative.wakeLock st.1) /\
  match o with
  | Granted => True
  | Failed _ =>
      NoSleepNative.wakeLock st.1 = NoSleepNative.wakeLock this /\
      wakeLocks st.2 = wakeLocks h
  end.
Proof.
  intros Hl Hv Hin. rewrite document_dispatchEvent_fold.
  destruct (listeners_reacquire ty o (documentListeners (the_document h))
              this h Hl Hv) as (I1 & I2 & _ & I4).
  split; [now apply I2|]. split; [exact I1|].
  destruct o; [exact I | now apply I4].
Qed.

Lemma document_dispatchEvent_reacquires_witness :
  let st :=
    NoSleepNative.document_dispatchEvent "visibilitychange"
      (Failed (ErrorObject "NotAllowedError" "denied"))
      native_holding.1 native_holding.2 in
  NoSleepNative.enabled native_holding.1 = true /\
  NoSleepNative.enabled st.1 = false /\
  NoSleepNative.wakeLock st.1 = Some 0%nat.
Proof.
  assert (Hl : is_Some (NoSleepNative.wakeLock native_holding.1))
    by (vm_compute; eauto).
  assert (Hv : visibilityState (the_document native_holding.2) = visible)
    by reflexivity.
  assert (Hin : In ("visibilitychange", handleVisibilityChange)
                  (documentListeners (the_document native_holding.2)))
    by (left; reflexivity).
  assert (He : NoSleepNative.enabled native_holding.1 = true) by reflexivity.
  assert (Hw : NoSleepNative.wakeLock native_holding.1 = Some 0%nat)
    by reflexivity.
  pose proof (document_dispatchEvent_reacquires "visibilitychange"
                (Failed (ErrorObject "NotAllowedError" "denied"))
                native_holding.1 native_holding.2 Hl Hv Hin) as H.
  cbv zeta in H |- *. destruct H as (H1 & _ & H2 & _).
  split; [exact He|]. split; [exact H1|]. now rewrite H2.
Defined.

(** ** What every history of [NoSleepNative] keeps *)

(** A property of the instance and the sentinels that [enable],
    [disable] and the permitted releases keep is kept by every event. *)
Lemma native_step_keeps
  (P : NoSleepNative.t -> gmap nat WakeLockSentinel -> Prop)
  (permitted : nat -> Prop) :
  (forall o this h,
     P this (wakeLocks h) ->
     P (NoSleepNative.enable o this h).1.2
       (wakeLocks (NoSleepNative.enable o this h).2)) ->
  (forall this h,
     P this (wakeLocks h) ->
     P (NoSleepNative.disable this h).1.2
       (wakeLocks (NoSleepNative.disable this h).2)) ->
  (forall lock this h,
     permitted lock -> P this (wakeLocks h) ->
     P this (wakeLocks (release lock h))) ->
  forall ev st,
    (forall lock, ev = native_release lock -> permitted lock) ->
    P st.1 (wakeLocks st.2) ->
    P (native_step ev st).1 (wakeLocks (native_step ev st).2).
Proof.
  intros Hen Hdis Hrel.
  assert (Hfold : forall ty o ls st,
             P st.1 (wakeLocks st.2) ->
             P (fold_left (listener_step ty o) ls st).1
               (wakeLocks (fold_left (listener_step ty o) ls st).2)).
  { intros ty o ls. induction ls as [|tl ls IH]; intros st Hst; [exact Hst|].
    cbn [fold_left]. apply IH. unfold listener_step.
    destruct (String.eqb ty tl.1); [|exact Hst].
    destruct tl.2; try exact Hst.
    unfold NoSleepNative.handleVisibilityChange_call.
    destruct (NoSleepNative.wakeLock st.1); [|exact Hst].
    destruct (visibilityState (the_document st.2)); [|exact Hst].
    specialize (Hen o st.1 st.2 Hst).
    destruct (NoSleepNative.enable o st.1 st.2) as [[r this1] h1].
    exact Hen. }
  intros ev [this h] Hperm Hst. cbn [fst snd] in Hst.
  destruct ev as [o| |lock|v o|o]; cbn [native_step fst snd].
  - specialize (Hen o this h Hst).
    destruct (NoSleepNative.enable o this h) as [[r this1] h1]. exact Hen.
  - specialize (Hdis this h Hst).
    destruct (NoSleepNative.disable this h) as [[r this1] h1]. exact Hdis.
  - apply Hrel; [now apply Hperm | exact Hst].
  - unfold NoSleepNative.visibilitychange.
    rewrite document_dispatchEvent_fold. now apply Hfold.
  - unfold fullscreenchange.
    rewrite document_dispatchEvent_fold. now apply Hfold.
Qed.

Lemma native_run_keeps
  (P : NoSleepNative.t -> gmap nat WakeLockSentinel -> Prop)
  (permitted : nat -> Prop) :
  (forall o this h,
     P this (wakeLocks h) ->
     P (NoSleepNative.enable o this h).1.2
       (wakeLocks (NoSleepNative.enable o this h).2)) ->
  (forall this h,
     P this (wakeLocks h) ->
     P (NoSleepNative.disable this h).1.2
       (wakeLocks (NoSleepNative.disable this h).2)) ->
  (forall lock this h,
     permitted lock -> P this (wakeLocks h) ->
     P this (wakeLocks (release lock h))) ->
  forall evs st,
    Forall (fun ev => forall lock, ev = native_release lock -> permitted lock)
      evs ->
    P st.1 (wakeLocks st.2) ->
    P (native_run evs st).1 (wakeLocks (native_run evs st).2).
Proof.
  intros Hen Hdis Hrel evs. unfold native_run.
  induction evs as [|ev evs IH]; intros st Hall Hst; [exact Hst|].
  inversion Hall as [|? ? Hev Hevs]; subst. cbn [fold_left].
  apply IH; [exact Hevs|].
  now apply (native_step_keeps P permitted Hen Hdis Hrel).
Qed.

(** From construction on, through calls, releases and document events
    in any order: when [enabled] is true a handle is stored, and a
    stored handle is a sentinel the platform handed out. *)
Theorem native_enabled_has_handle (h0 : Host) (evs : list NativeEvent) :
  let st := native_run evs (NoSleepNative.constructor h0) in
  handle_known st.1 (wakeLocks st.2) /\
  (NoSleepNative.enabled st.1 = true ->
   exists lock, NoSleepNative.wakeLock st.1 = Some lock /\
                is_Some (wakeLocks st.2 !! lock)).
Proof.
  intros st.
  assert (H : handle_known st.1 (wakeLocks st.2)).
  { apply (native_run_keeps handle_known (fun _ => True)).
    - intros o this h Hk. destruct o as [|err].
      + unfold handle_known. cbn -[fresh dom].
        rewrite lookup_alter_eq, lookup_insert_eq. eauto.
      + unfold handle_known in *. cbn -[log_if_Error].
        rewrite (proj1 (log_if_Error_frame err h)).
        destruct (NoSleepNative.wakeLock this); [exact Hk | reflexivity].
    - intros this h _. reflexivity.
    - intros lock this h _ Hk. unfold handle_known in *.
      destruct (NoSleepNative.wakeLock this) as [l|]; [|exact Hk].
      now apply release_keeps_sentinels.
    - apply Forall_forall. auto.
    - reflexivity. }
  split; [exact H|].
  intros He. unfold handle_known in H.
  destruct (NoSleepNative.wakeLock st.1) as [lock|]; [eauto | congruence].
Qed.

Lemma enable_granted_keeps_other (this : NoSleepNative.t) (h : Host)
  (l : nat) (s : WakeLockSentinel) :
  wakeLocks h !! l = Some s ->
  NoSleepNative.wakeLock (NoSleepNative.enable Granted this h).1.2 <> Some l /\
  wakeLocks (NoSleepNative.enable Granted this h).2 !! l = Some s.
Proof.
  intros Hl. cbn -[fresh dom].
  assert (Hne : fresh (dom (wakeLocks h)) <> l).
  { intros E. pose proof (is_fresh (dom (wakeLocks h))) as Hf.
    rewrite E in Hf. apply Hf. apply elem_of_dom. eauto. }
  split; [congruence|].
  now rewrite lookup_alter_ne, lookup_insert_ne.
Qed.

(** [enable] does not release the handle it replaces: after two granted
    calls in a row the sentinel of the first stays active, and no later
    call or document event releases it, [disable] included; only the
    platform can. *)
Theorem replaced_sentinel_stays_active (this : NoSleepNative.t) (h : Host)
  (evs : list NativeEvent) :
  let first := fresh (dom (wakeLocks h)) in
  Forall (fun ev => ev <> native_release first) evs ->
  let st :=
    native_run (native_enable Granted :: native_enable Granted :: evs)
      (this, h) in
  active first st.2 = true /\
  NoSleepNative.wakeLock st.1 <> Some first.
Proof.
  intros first Hevs st.
  set (P := fun (t : NoSleepNative.t) (W : gmap nat WakeLockSentinel) =>
              NoSleepNative.wakeLock t <> Some first /\
              exists s, W !! first = Some s /\ released s = false).
  assert (HP : P st.1 (wakeLocks st.2)).
  { unfold st. cbn [native_run fold_left].
    apply (native_run_keeps P (fun l => l <> first)).
    - intros o t h' [Hw (s & Hs & Hr)]. destruct o as [|err].
      + destruct (enable_granted_keeps_other t h' first s Hs) as [H1 H2].
        split; [exact H1 | eauto].
      + split; [exact Hw|]. cbn -[log_if_Error].
        rewrite (proj1 (log_if_Error_frame err h')). eauto.
    - intros t h' [Hw (s & Hs & Hr)].
      split; [discriminate|]. cbn.
      destruct (NoSleepNative.wakeLock t) as [l|]; [|eauto].
      rewrite release_other by congruence. eauto.
    - intros lock t h' Hne [Hw (s & Hs & Hr)].
      split; [exact Hw|]. rewrite release_other by exact Hne. eauto.
    - apply Forall_forall. intros ev Hin lock ->.
      rewrite Forall_forall in Hevs. specialize (Hevs _ Hin).
      intros ->. now apply Hevs.
    - cbn [native_step fst snd].
      assert (Hs1 : wakeLocks (NoSleepNative.enable Granted this h).2 !! first
                    = Some {| released := false;
                              releaseListeners := [onRelease] |}).
      { cbn -[fresh dom]. fold first.
        now rewrite lookup_alter_eq, lookup_insert_eq. }
      destruct (NoSleepNative.enable Granted this h) as [[r this1] h1].
      cbn [fst snd] in *.
      destruct (enable_granted_keeps_other this1 h1 first _ Hs1) as [H2 H3].
      destruct (NoSleepNative.enable Granted this1 h1) as [[r2 this2] h2].
      cbn [fst snd] in *. split; [exact H2 | eauto]. }
  destruct HP as [Hw (s & Hs & Hr)].
  split; [|exact Hw]. unfold active. now rewrite Hs, Hr.
Qed.

(** ** [NoSleepVideo.enable] and [disable] together *)

Lemma alter_paused_twice (b c : bool) (id : nat) (m : gmap nat Element) :
  alter (with_paused c) id (alter (with_paused b) id m)
  = alter (with_paused c) id m.
Proof.
  rewrite alter_alter_eq. apply alter_ext. reflexivity.
Qed.

(** Whatever [enable] came to, [disable] after it leaves the instance
    disabled and the document as it was before [enable] but for the
    element being paused; the sentinels are untouched, and a second
    [disable] changes nothing. *)
Theorem video_enable_then_disable (o : Outcome) (this : NoSleepVideo.t)
  (h : Host) :
  let '(_, this1, h1) := NoSleepVideo.enable o this h in
  let '(c, this2, h2) := NoSleepVideo.disable this1 h1 in
  c = Normal /\
  this2 = {| NoSleepVideo.enabled := false;
             NoSleepVideo.noSleepVideo := NoSleepVideo.noSleepVideo this |} /\
  the_document h2
  = update_node (NoSleepVideo.noSleepVideo this) (with_paused true)
      (the_document h) /\
  wakeLocks h2 = wakeLocks h /\
  NoSleepVideo.disable this2 h2 = (Normal, this2, h2).
Proof.
  unfold NoSleepVideo.disable, NoSleepVideo.enable, update_node.
  destruct o as [|err]; cbn -[log_if_Error].
  - rewrite !alter_paused_twice. repeat split; reflexivity.
  - destruct (log_if_Error_frame err h) as [Hw Hd].
    rewrite Hd, Hw, !alter_paused_twice.
    repeat split; try reflexivity.
Qed.

(** ** The constructor of [NoSleepVideo], once more *)

Lemma append_frame (parent child : nat) (d : Document) :
  body (append parent child d) = body d /\
  visibilityState (append parent child d) = visibilityState d /\
  documentListeners (append parent child d) = documentListeners d.
Proof.
  unfold append, remove_from_parent.
  destruct (nodes d !! child) as [c|]; [|repeat split].
  destruct (parentNode c); repeat split.
Qed.

(** The constructor writes to the document only: console, sentinels and
    listeners of the document are as before, the element it stores is
    new, and of the elements the document had only the body can have
    changed. *)
Theorem video_constructor_frame (mp4 webm : string) (h : Host) :
  let '(this, h1) := NoSleepVideo.constructor mp4 webm h in
  let d := the_document h in
  let d1 := the_document h1 in
  NoSleepVideo.enabled this = false /\
  nodes d !! NoSleepVideo.noSleepVideo this = None /\
  (wakeLocks h1 = wakeLocks h /\ console h1 = console h /\
   random_calls h1 = random_calls h) /\
  (body d1 = body d /\ visibilityState d1 = visibilityState d /\
   documentListeners d1 = documentListeners d) /\
  (forall j, is_Some (nodes d !! j) -> body d <> Some j ->
             nodes d1 !! j = nodes d !! j).
Proof.
  pose proof (constructor_fresh_ids (nodes (the_document h)))
    as [(Hv & Hs1 & Hs2) (Hv1 & Hv2 & H12)].
  pose proof (constructor_closed mp4 webm h) as Hc. cbv zeta in Hc.
  set (video := fresh (dom (nodes (the_document h)))) in *.
  set (s1 := fresh ({[video]} ∪ dom (nodes (the_document h)))) in *.
  set (s2 := fresh ({[s1]} ∪ ({[video]} ∪ dom (nodes (the_document h))))) in *.
  rewrite Hc. clear Hc. cbn [NoSleepVideo.enabled NoSleepVideo.noSleepVideo].
  split; [reflexivity|]. split; [exact Hv|].
  split; [repeat split|].
  assert (Hold : forall j, is_Some (nodes (the_document h) !! j) ->
                           j <> video /\ j <> s1 /\ j <> s2).
  { intros j [e He]. repeat split; congruence. }
  destruct (body (the_document h)) as [b|] eqn:Hb.
  - split.
    { cbn [the_document with_document]. unfold addEventListener.
      cbn [body visibilityState documentListeners update_node with_nodes].
      match goal with
      | |- context [append b video ?D] =>
          destruct (append_frame b video D) as (-> & -> & ->)
      end.
      repeat split. exact Hb. }
    intros j Hj Hjb. destruct (Hold j Hj) as (N1 & N2 & N3).
    unfold addEventListener, append, remove_from_parent.
    cbn -[fresh dom video_element source_element].
    rewrite lookup_insert_eq. cbn -[fresh dom video_element source_element].
    unfold update_node. cbn -[fresh dom video_element source_element].
    rewrite !lookup_alter_ne by congruence.
    now rewrite !lookup_insert_ne by congruence.
  - split; [repeat split; exact Hb|].
    intros j Hj _. destruct (Hold j Hj) as (N1 & N2 & N3).
    unfold addEventListener, update_node.
    cbn -[fresh dom video_element source_element].
    rewrite lookup_alter_ne by congruence.
    now rewrite !lookup_insert_ne by congruence.
Qed.

(** The constructor in a document with a body, in closed form. *)
Lemma constructor_with_body (mp4 webm : string) (h : Host)
  (b : nat) (be : Element) :
  body (the_document h) = Some b ->
  nodes (the_document h) !! b = Some be ->
  let d := the_document h in
  let video := fresh (dom (nodes d)) in
  let s1 := fresh ({[video]} ∪ dom (nodes d)) in
  let s2 := fresh ({[s1]} ∪ ({[video]} ∪ dom (nodes d))) in
  NoSleepVideo.constructor mp4 webm h
  = ({| NoSleepVideo.enabled := false; NoSleepVideo.noSleepVideo := video |},
     with_document
       (with_nodes
          (<[video := video_element s1 s2 (Some b)]>
             (<[b := with_childNodes (childNodes be ++ [video]) be]>
                (<[s2 := source_element NoSleepVideo.type_mp4 mp4 video]>
                   (<[s1 := source_element NoSleepVideo.type_webm webm video]>
                      (nodes d))))) d) h).
Proof.
  intros Hb Hbe d video s1 s2.
  pose proof (constructor_fresh_ids (nodes d))
    as [(Hv & Hs1 & Hs2) (Hv1 & Hv2 & H12)].
  fold video s1 s2 in Hv, Hs1, Hs2, Hv1, Hv2, H12.
  assert (Hbv : b <> video) by (unfold d in *; congruence).
  assert (Hb1 : b <> s1) by (unfold d in *; congruence).
  assert (Hb2 : b <> s2) by (unfold d in *; congruence).
  pose proof (constructor_closed mp4 webm h) as Hc. cbv zeta in Hc.
  fold d video s1 s2 in Hc. rewrite Hc. clear Hc. fold d in Hb. rewrite Hb.
  erewrite (append_new_child b video be);
    [| assumption
     | rewrite !lookup_insert_ne by congruence; exact Hbe
     | apply lookup_insert_eq
     | reflexivity].
  unfold addEventListener.
  erewrite update_node_Some by apply lookup_insert_eq.
  rewrite insert_insert_eq.
  rewrite insert_shadow by congruence.
  reflexivity.
Qed.

(** Every construction adds an element of its own: after two, the body
    ends with two different [video] elements, in the order of
    construction, and the first is as its constructor left it. *)
Theorem constructor_twice (mp4 webm : string) (h : Host)
  (b : nat) (be : Element) :
  body (the_document h) = Some b ->
  nodes (the_document h) !! b = Some be ->
  let '(first, h1) := NoSleepVideo.constructor mp4 webm h in
  let '(second, h2) := NoSleepVideo.constructor mp4 webm h1 in
  let v1 := NoSleepVideo.noSleepVideo first in
  let v2 := NoSleepVideo.noSleepVideo second in
  v1 <> v2 /\
  nodes (the_document h2) !! b
  = Some (with_childNodes (childNodes be ++ [v1; v2]) be) /\
  nodes (the_document h2) !! v1 = nodes (the_document h1) !! v1 /\
  (tagName <$> nodes (the_document h2) !! v1) = Some "video" /\
  (tagName <$> nodes (the_document h2) !! v2) = Some "video" /\
  attached (the_document h2) v1 = true /\
  attached (the_document h2) v2 = true.
Proof.
  intros Hb Hbe.
  rewrite (constructor_with_body mp4 webm h b be Hb Hbe).
  set (d := the_document h).
  set (v1 := fresh (dom (nodes d))).
  set (s1 := fresh ({[v1]} ∪ dom (nodes d))).
  set (s2 := fresh ({[s1]} ∪ ({[v1]} ∪ dom (nodes d)))).
  pose proof (constructor_fresh_ids (nodes d))
    as [(Hv & Hs1 & Hs2) (Hv1 & Hv2 & H12)].
  fold v1 s1 s2 in Hv, Hs1, Hs2, Hv1, Hv2, H12.
  assert (Hbv : b <> v1) by (unfold d in *; congruence).
  assert (Hb1 : b <> s1) by (unfold d in *; congruence).
  assert (Hb2 : b <> s2) by (unfold d in *; congruence).
  set (N1 := <[v1 := video_element s1 s2 (Some b)]>
               (<[b := with_childNodes (childNodes be ++ [v1]) be]>
                  (<[s2 := source_element NoSleepVideo.type_mp4 mp4 v1]>
                     (<[s1 := source_element NoSleepVideo.type_webm webm v1]>
                        (nodes d))))).
  set (h1 := with_document (with_nodes N1 d) h).
  assert (Hb' : body (the_document h1) = Some b) by exact Hb.
  assert (Hbe' : nodes (the_document h1) !! b
                 = Some (with_childNodes (childNodes be ++ [v1]) be)).
  { unfold h1, N1. cbn [the_document with_document nodes with_nodes].
    rewrite lookup_insert_ne by congruence. apply lookup_insert_eq. }
  assert (Hv1' : nodes (the_document h1) !! v1
                 = Some (video_element s1 s2 (Some b))).
  { unfold h1, N1. cbn [the_document with_document nodes with_nodes].
    apply lookup_insert_eq. }
  rewrite (constructor_with_body mp4 webm h1 _ _ Hb' Hbe').
  pose proof (constructor_fresh_ids (nodes (the_document h1)))
    as [(Gv & Gs1 & Gs2) (Gv1 & Gv2 & G12)].
  set (v2 := fresh (dom (nodes (the_document h1)))) in *.
  set (t1 := fresh ({[v2]} ∪ dom (nodes (the_document h1)))) in *.
  set (t2 := fresh ({[t1]} ∪ ({[v2]} ∪ dom (nodes (the_document h1))))) in *.
  assert (Hn2 : v1 <> v2) by congruence.
  assert (Hnt1 : v1 <> t1) by congruence.
  assert (Hnt2 : v1 <> t2) by congruence.
  assert (Hbv2 : b <> v2) by congruence.
  cbn [NoSleepVideo.noSleepVideo the_document with_document nodes with_nodes body].
  assert (Hlb : forall X Y Z,
    (<[v2 := X]>
       (<[b := with_childNodes
                 (childNodes (with_childNodes (childNodes be ++ [v1]) be)
                  ++ [v2]) (with_childNodes (childNodes be ++ [v1]) be)]>
          (<[t2 := Y]> (<[t1 := Z]> (nodes (the_document h1))))))
      !! b = Some (with_childNodes (childNodes be ++ [v1; v2]) be)).
  { intros X Y Z. rewrite lookup_insert_ne by congruence.
    rewrite lookup_insert_eq. cbn. now rewrite <- app_assoc. }
  assert (Hl1 : forall X Y Z W,
    (<[v2 := X]> (<[b := W]>
          (<[t2 := Y]> (<[t1 := Z]> (nodes (the_document h1))))))
      !! v1 = Some (video_element s1 s2 (Some b))).
  { intros X Y Z W. rewrite !lookup_insert_ne by congruence. exact Hv1'. }
  split; [exact Hn2|].
  split; [apply Hlb|].
  split; [rewrite Hl1; now rewrite Hv1'|].
  split; [now rewrite Hl1|].
  split; [now rewrite lookup_insert_eq|].
  unfold attached.
  cbn [NoSleepVideo.noSleepVideo the_document with_document nodes with_nodes body].
  rewrite Hb', Hlb, Hl1, lookup_insert_eq.
  split; apply andb_true_intro; split; apply bool_decide_eq_true;
    try reflexivity; cbn; apply list_elem_of_In, in_or_app; right; cbn; auto.
Qed.

(** ** The metadata listener stays *)

Lemma dispatch_skips_timeupdate (random : nat -> Q) (this : NoSleepVideo.t)
  (k : nat) (h : Host) :
  fold_left
    (fun h (tl : string * Listener) =>
       if String.eqb "loadedmetadata" tl.1
       then (NoSleepVideo.run_listener random tl.2 this h).2
       else h)
    (replicate k ("timeupdate", onTimeUpdate)) h = h.
Proof. induction k as [|k IH]; [reflexivity | exact IH]. Qed.

Lemma dispatch_loadedmetadata (random : nat -> Q) (this : NoSleepVideo.t)
  (h : Host) (e : Element) (k : nat) :
  nodes (the_document h) !! NoSleepVideo.noSleepVideo this = Some e ->
  listeners e
  = ("loadedmetadata", onLoadedMetadata)
    :: replicate k ("timeupdate", onTimeUpdate) ->
  (NoSleepVideo.dispatchEvent random "loadedmetadata" this h).2
  = with_document
      (with_nodes
         (<[NoSleepVideo.noSleepVideo this :=
              if num_le (duration e) (Finite 1)
              then with_attribute "loop" "" e
              else with_listener "timeupdate" onTimeUpdate e]>
            (nodes (the_document h))) (the_document h)) h.
Proof.
  intros He Hl. unfold NoSleepVideo.dispatchEvent. rewrite He, Hl.
  cbn [snd fold_left fst String.eqb Ascii.eqb Bool.eqb NoSleepVideo.run_listener].
  rewrite dispatch_skips_timeupdate.
  unfold NoSleepVideo.loadedmetadata_listener. rewrite He.
  destruct (num_le (duration e) (Finite 1)); unfold on_document; cbn [snd];
    unfold setAttribute, addEventListener, update_node;
    now rewrite (alter_lookup_Some _ _ e _ He).
Qed.

(** The metadata listener is not removed after it has run: on a clip
    longer than 1 every further [loadedmetadata] adds one more
    [timeupdate] listener, and on a shorter clip the events after the
    first change nothing more than the first did. *)
Theorem loadedmetadata_every_time (random : nat -> Q)
  (this : NoSleepVideo.t) (h : Host) (e : Element) (n : nat) :
  nodes (the_document h) !! NoSleepVideo.noSleepVideo this = Some e ->
  listeners e = [("loadedmetadata", onLoadedMetadata)] ->
  exists e',
    nodes (the_document (metadata_events random this n h))
      !! NoSleepVideo.noSleepVideo this = Some e' /\
    duration e' = duration e /\
    listeners e'
    = ("loadedmetadata", onLoadedMetadata)
      :: (if num_le (duration e) (Finite 1) then []
          else replicate n ("timeupdate", onTimeUpdate)) /\
    loop e' = (num_le (duration e) (Finite 1) && negb (Nat.eqb n 0)) || loop e.
Proof.
  intros He Hl. induction n as [|n IH].
  - exists e. cbn. rewrite andb_false_r.
    repeat split; [exact He | rewrite Hl; now destruct (num_le _ _)].
  - destruct IH as (e1 & H1 & Hd & Hls & Hloop).
    unfold metadata_events in *. rewrite Nat.iter_succ.
    set (h1 := Nat.iter n _ h) in *.
    assert (Hk : exists k, listeners e1
                   = ("loadedmetadata", onLoadedMetadata)
                     :: replicate k ("timeupdate", onTimeUpdate)).
    { rewrite Hls. destruct (num_le (duration e) (Finite 1));
        [exists 0%nat | exists n]; reflexivity. }
    destruct Hk as [k Hk].
    rewrite (dispatch_loadedmetadata random this h1 e1 k H1 Hk).
    cbn [the_document with_document nodes with_nodes].
    rewrite lookup_insert_eq, Hd.
    destruct (num_le (duration e) (Finite 1)) eqn:Hshort.
    + exists (with_attribute "loop" "" e1).
      assert (Hon : loop (with_attribute "loop" "" e1) = true).
      { unfold loop. apply bool_decide_eq_true. cbn.
        rewrite lookup_insert_eq. eauto. }
      rewrite Hon. repeat split; assumption.
    + exists (with_listener "timeupdate" onTimeUpdate e1).
      repeat split; try assumption.
      cbn [listeners with_listener]. rewrite Hls, replicate_S_end.
      reflexivity.
Qed.

(** ** From the selector to the first call *)

(** From the selector to the first call, on every environment.  Without
    a [navigator] the instance is the no-op one: [enable] throws the
    no-op-mode error and nothing changes.  With a [navigator] and a
    document the selected class is constructed on that document, and a
    granted [enable] turns [enabled] on without an error.  With a
    [navigator] and no document the constructor itself throws a
    [ReferenceError], and there is no instance to call. *)
Theorem enable_after_selection (env : Env) (mp4 webm : string) (h : Host) :
  match navigator env, document env with
  | None, _ =>
      construct mp4 webm env h = inr (SSR NoSleepSSR.constructor, h) /\
      exists v,
        perform (call_enable Granted) (SSR NoSleepSSR.constructor) h
        = (Some v, SSR NoSleepSSR.constructor, h) /\
        ModeError v = true
  | Some _, None =>
      exists message,
        construct mp4 webm env h
        = inl (ErrorObject "ReferenceError" message)
  | Some _, Some d =>
      construct mp4 webm env h
      = inr (new mp4 webm (defaultExport env) (with_document d h)) /\
      let '(i, h1) := new mp4 webm (defaultExport env) (with_document d h) in
      let '(r, i2, h2) := perform (call_enable Granted) i h1 in
      strategy_of i = defaultExport env /\
      strategy_of i2 = defaultExport env /\
      r = None /\
      enabled i2 = true
  end.
Proof.
  unfold construct.
  destruct (navigator env) as [nav|] eqn:Hnav.
  - assert (Hsel : defaultExport env <> NoSleepSSR).
    { intros E. apply defaultExport_SSR_iff in E. congruence. }
    destruct (document env) as [d|].
    + split; [destruct (defaultExport env); [now elim Hsel | | ]; reflexivity|].
      pose proof (new_strategy mp4 webm (defaultExport env)
                    (with_document d h)) as Hs.
      destruct (new mp4 webm (defaultExport env) (with_document d h))
        as [i h1].
      cbn [fst] in Hs.
      destruct i as [this|this|this]; [elim Hsel; now rewrite <- Hs | |].
      * cbn -[fresh dom]. rewrite <- Hs. repeat split.
      * cbn. rewrite <- Hs. repeat split.
    + destruct (defaultExport env); [now elim Hsel | |]; eauto.
  - assert (Hsel : defaultExport env = NoSleepSSR)
      by (now apply defaultExport_SSR_iff).
    rewrite Hsel. split; [reflexivity|].
    eexists. split; reflexivity.
Qed.

Lemma replaced_sentinel_stays_active_witness :
  let later := [native_disable; native_visibilitychange visible Granted] in
  let st :=
    native_run (native_enable Granted :: native_enable Granted :: later)
      (fresh_native.1, fresh_native.2) in
  Forall (fun ev => ev <> native_release 0) later /\
  active 0 st.2 = true /\
  NoSleepNative.wakeLock st.1 = None.
Proof.
  intros later st.
  assert (Hall : Forall (fun ev => ev <> native_release 0) later)
    by (repeat constructor; discriminate).
  split; [exact Hall|].
  split; [|reflexivity].
  exact (proj1 (replaced_sentinel_stays_active fresh_native.1 fresh_native.2
                  later Hall)).
Defined.

Lemma constructor_twice_witness :
  let '(first, h1) := NoSleepVideo.constructor "mp4" "webm" (host_of page) in
  let '(second, h2) := NoSleepVideo.constructor "mp4" "webm" h1 in
  NoSleepVideo.noSleepVideo first <> NoSleepVideo.noSleepVideo second.
Proof.
  assert (Hb : body (the_document (host_of page)) = Some 1%nat)
    by reflexivity.
  assert (Hbe : nodes (the_document (host_of page)) !! 1%nat
                = Some (with_parentNode (Some 0%nat) (blank "body")))
    by (vm_compute; reflexivity).
  pose proof (constructor_twice "mp4" "webm" (host_of page) 1%nat _ Hb Hbe)
    as H.
  destruct (NoSleepVideo.constructor "mp4" "webm" (host_of page))
    as [first h1].
  destruct (NoSleepVideo.constructor "mp4" "webm" h1) as [second h2].
  exact (proj1 H).
Defined.

Lemma loadedmetadata_every_time_witness :
  let random := fun _ : nat => 9 # 10 in
  let this := (playing_at (3 # 5)).1 in
  let h := (playing_at (3 # 5)).2 in
  exists e',
    nodes (the_document (metadata_events random this 2 h))
      !! NoSleepVideo.noSleepVideo this = Some e' /\
    listeners e'
    = [("loadedmetadata", onLoadedMetadata); ("timeupdate", onTimeUpdate);
       ("timeupdate", onTimeUpdate)].
Proof.
  intros random this h.
  assert (He : nodes (the_document h) !! NoSleepVideo.noSleepVideo this
               = Some (with_currentTime (Finite (3 # 5))
                         (video_element 3 4 (Some 1%nat))))
    by (vm_compute; reflexivity).
  pose proof (loadedmetadata_every_time random this h _ 2 He eq_refl) as H.
  clearbody this h.
  destruct H as (e' & H1 & _ & H2 & _).
  exists e'. split; [exact H1 | exact H2].
Defined.
